(** * sync_adp_to_talentlms: a shallow embedding and its properties

    The development follows [src/sync_adp_to_talentlms.py]:

    - Python values the script inspects (optional strings, truthiness,
      [str.strip], [str.lower], [int]);
    - ADP worker records and the org hierarchy;
    - [collect_reports] / [get_all_reports_under_manager];
    - [get_all_talentlms_emails], [get_active_adp_workers];
    - [sync_workers_to_talentlms] in a state-and-exception monad;
    - [main].

    A string is its UTF-8 text; [str.strip], [str.lower] and [int] are
    methods of the interpreter, known on ASCII text.  Python integers are
    unbounded: counters are [nat], account ids [Z].  The depth of nested
    calls the interpreter allows is a parameter of the recursive
    collector. *)

From Stdlib Require Import ZArith Ascii String.
From stdpp Require Import base decidable option list gmap strings.

Local Open Scope Z_scope.
Local Open Scope nat_scope.

(** ** Python values *)

Module Py.

(** A value read with [dict.get] that is a string when present:
    [None] stands for an absent key and for Python's [None]. *)
Definition optstr := option string.

(** Truthiness of such a value: [None] and [""] are falsy.  [truthy v]
    returns the string when [v] is truthy. *)
Definition truthy (v : optstr) : option string :=
  match v with
  | Some s => if decide (s = EmptyString) then None else Some s
  | None => None
  end.

(** [a or b]. *)
Definition or_ (a b : optstr) : optstr :=
  match truthy a with
  | Some _ => a
  | None => b
  end.

(** *** The string methods on ASCII text

    What [str.strip()], [str.lower()] and [int()] do to a string whose
    characters are all ASCII.  On other text the interpreter consults the
    Unicode tables; there the methods are the fields of [Interpreter]
    below. *)

Definition is_ascii_char (c : ascii) : bool := nat_of_ascii c <? 128.

Fixpoint is_ascii (s : string) : bool :=
  match s with
  | String c s' => is_ascii_char c && is_ascii s'
  | EmptyString => true
  end.

(** ASCII characters removed by [str.strip()] (those with [str.isspace]):
    tab, newline, vertical tab, form feed, carriage return, the four
    separators 0x1c-0x1f and the space. *)
Definition is_space (c : ascii) : bool :=
  let n := nat_of_ascii c in
  ((9 <=? n) && (n <=? 13)) || ((28 <=? n) && (n <=? 32)).

Fixpoint lstrip (s : string) : string :=
  match s with
  | String c s' => if is_space c then lstrip s' else s
  | EmptyString => EmptyString
  end.

(** Removes trailing white space: a character is kept when it is not
    white space or when something remains after it. *)
Fixpoint rstrip (s : string) : string :=
  match s with
  | String c s' =>
      match rstrip s' with
      | EmptyString => if is_space c then EmptyString else String c EmptyString
      | r => String c r
      end
  | EmptyString => EmptyString
  end.

Definition ascii_strip (s : string) : string := rstrip (lstrip s).

Definition lower_char (c : ascii) : ascii :=
  let n := nat_of_ascii c in
  if (65 <=? n) && (n <=? 90) then ascii_of_nat (n + 32) else c.

Fixpoint ascii_lower (s : string) : string :=
  match s with
  | String c s' => String (lower_char c) (ascii_lower s')
  | EmptyString => EmptyString
  end.

(** White space that [int()] skips around a literal: tab, newline, vertical
    tab, form feed, carriage return and the space (not 0x1c-0x1f). *)
Definition is_int_space (c : ascii) : bool :=
  let n := nat_of_ascii c in
  ((9 <=? n) && (n <=? 13)) || (n =? 32).

Fixpoint int_lstrip (s : string) : string :=
  match s with
  | String c s' => if is_int_space c then int_lstrip s' else s
  | EmptyString => EmptyString
  end.

Fixpoint int_rstrip (s : string) : string :=
  match s with
  | String c s' =>
      match int_rstrip s' with
      | EmptyString => if is_int_space c then EmptyString else String c EmptyString
      | r => String c r
      end
  | EmptyString => EmptyString
  end.

Definition digit_of (c : ascii) : option Z :=
  let n := nat_of_ascii c in
  if (48 <=? n) && (n <=? 57) then Some (Z.of_nat (n - 48)) else None.

(** Digits of a decimal literal, single underscores allowed between
    digits.  [acc] is the value read so far, [after_digit] tells whether
    the previous character was a digit. *)
Fixpoint int_digits (s : string) (acc : Z) (after_digit : bool) : option Z :=
  match s with
  | EmptyString => if after_digit then Some acc else None
  | String c s' =>
      match digit_of c with
      | Some d => int_digits s' (acc * 10 + d)%Z true
      | None =>
          if Ascii.eqb c "_"%char && after_digit
          then match s' with
               | String c' _ =>
                   match digit_of c' with
                   | Some _ => int_digits s' acc false
                   | None => None
                   end
               | EmptyString => None
               end
          else None
      end
  end.

(** [int(s)] for an ASCII string of moderate length: surrounding white
    space, an optional sign, then decimal digits.  [None] stands for
    [ValueError]. *)
Definition ascii_int (s : string) : option Z :=
  match int_rstrip (int_lstrip s) with
  | String "-" r => Z.opp <$> int_digits r 0%Z false
  | String "+" r => int_digits r 0%Z false
  | r => int_digits r 0%Z false
  end.

(** *** The interpreter's string methods

    [str.strip()], [str.lower()] and [int()] on a string are built into the
    interpreter and follow the Unicode tables: they are taken as they are,
    as three functions on the UTF-8 text of a string.  What is known of
    them here is their behaviour on ASCII text; for [int()], on ASCII text
    short enough to stay under the interpreter's limit of 4300 digits. *)
Class Interpreter := {
  strip : string -> string;
  lower : string -> string;
  int_of_str : string -> option Z;
  strip_ascii : forall s, is_ascii s = true -> strip s = ascii_strip s;
  lower_ascii : forall s, is_ascii s = true -> lower s = ascii_lower s;
  int_ascii : forall s, is_ascii s = true -> String.length s <= 4300 ->
                        int_of_str s = ascii_int s
}.

(** The interpreter restricted to ASCII text, for runs on ASCII data. *)
Definition ascii_interpreter : Interpreter :=
  {| strip := ascii_strip;
     lower := ascii_lower;
     int_of_str := ascii_int;
     strip_ascii := fun _ _ => eq_refl;
     lower_ascii := fun _ _ => eq_refl;
     int_ascii := fun _ _ _ => eq_refl |}.

(** A JSON scalar as found under the key ['id'] of a response. *)
Inductive value :=
| VNone
| VInt (z : Z)
| VStr (s : string).

Definition value_truthy (v : value) : bool :=
  match v with
  | VNone => false
  | VInt z => negb (Z.eqb z 0)
  | VStr s => if decide (s = EmptyString) then false else true
  end.

(** Exceptions (subclasses of [Exception]): the two [int] raises, the one
    of a call nested deeper than the interpreter allows, and whatever a
    collaborator raises. *)
Inductive exn :=
| ValueError
| TypeError
| RecursionError
| Error (msg : string).

(** [int(v)]: [ValueError] for a string that is no literal, [TypeError] for
    [None]. *)
Definition int `{Interpreter} (v : value) : exn + Z :=
  match v with
  | VNone => inl TypeError
  | VInt z => inr z
  | VStr s =>
      match int_of_str s with
      | Some z => inr z
      | None => inl ValueError
      end
  end.

End Py.

(** ** Worker records and the org hierarchy *)

(** The nested object under the key ["workerID"]. *)
Record WorkerID := { idValue : Py.optstr }.

(** An ADP worker record, with the fields the script and its helpers read.
    [associateOID] and [workerID] are read by the script itself; the manager
    reference (a primary manager-id field and a secondary identifier field),
    the status flag, the display name, the name parts and the contact emails
    tagged by type are the fields of the data model that the helpers of
    [get_adp_info] and [sync_single_employee] read.  Python compares two
    such records with [==] field by field, which is Leibniz equality here. *)
Record worker := {
  associateOID : Py.optstr;
  workerID : option WorkerID;
  manager_id_primary : Py.optstr;
  manager_id_secondary : Py.optstr;
  status_active : bool;
  display_name : string;
  given_name : string;
  family_name : string;
  emails : list (string * string)
}.

#[global] Instance WorkerID_eq_dec : EqDecision WorkerID.
Proof. solve_decision. Defined.

#[global] Instance worker_eq_dec : EqDecision worker.
Proof. solve_decision. Defined.

(** [w.get("associateOID") or (w.get("workerID") or {}).get("idValue")],
    the expression the script uses for a report and for the manager. *)
Definition worker_id (w : worker) : Py.optstr :=
  Py.or_ (associateOID w)
         (match workerID w with Some d => idValue d | None => None end).

(** The identifier when it is truthy ([if report_id:]). *)
Definition worker_key (w : worker) : option string := Py.truthy (worker_id w).

(** Modelled from the spec: the manager-identifier extraction of
    [build_org_hierarchy] (module [get_adp_info], not among the sources).
    "Fallback chain: a primary manager-id field, else a secondary identifier
    field"; the worker has a manager when the result is present. *)
Definition manager_key (w : worker) : option string :=
  Py.truthy (Py.or_ (manager_id_primary w) (manager_id_secondary w)).

(** [manager_map.get(mgr_id, [])]. *)
Definition direct_reports_of (manager_map : gmap string (list worker))
    (mgr_id : string) : list worker :=
  default [] (manager_map !! mgr_id).

(** Modelled from the spec: the id map of [build_org_hierarchy] of
    [get_adp_info], not among the sources: "always register the worker in
    the id map". *)
Definition register_worker (worker_map : gmap Py.optstr worker) (w : worker)
    : gmap Py.optstr worker :=
  <[worker_id w := w]> worker_map.

Definition id_map (workers : list worker) : gmap Py.optstr worker :=
  foldl register_worker ∅ workers.

(** Modelled from the spec: the manager a worker is filed under.  The
    manager identifier must be present and must resolve "to another worker"
    of the list: some worker is registered under it, and it is not the
    worker's own identifier.  Otherwise the worker is an orphan, "absent
    from any list". *)
Definition manager_of (worker_map : gmap Py.optstr worker) (w : worker)
    : option string :=
  match manager_key w with
  | Some m =>
      if decide (is_Some (worker_map !! Some m) /\ worker_key w <> Some m)
      then Some m else None
  | None => None
  end.

(** Modelled from the spec: one iteration of the filing loop of
    [build_org_hierarchy]: "append the worker to that manager's
    direct-report list (preserving input order)". *)
Definition file_report (worker_map : gmap Py.optstr worker)
    (manager_map : gmap string (list worker)) (w : worker)
    : gmap string (list worker) :=
  match manager_of worker_map w with
  | Some m => <[m := direct_reports_of manager_map m ++ [w]]> manager_map
  | None => manager_map
  end.

(** Modelled from the spec: [build_org_hierarchy] of [get_adp_info], not
    among the sources: the manager map and the id map of the flat worker
    list. *)
Definition build_org_hierarchy (workers : list worker)
    : gmap string (list worker) * gmap Py.optstr worker :=
  let worker_map := id_map workers in
  (foldl (file_report worker_map) ∅ workers, worker_map).

(** The [for report in direct_reports] loop of [collect_reports]: [reports]
    is the accumulator, [rec] the recursive call, which returns a list or
    raises. *)
Fixpoint for_reports (rec : string -> Py.exn + list worker)
    (direct_reports reports : list worker) : Py.exn + list worker :=
  match direct_reports with
  | [] => inr reports
  | report :: rest =>
      let reports := reports ++ [report] in
      match worker_key report with
      | Some report_id =>
          match rec report_id with
          | inr sub => for_reports rec rest (reports ++ sub)
          | inl e => inl e
          end
      | None => for_reports rec rest reports
      end
  end.

(** [collect_reports], with [limit] the number of nested calls of
    [collect_reports] the interpreter still allows: a call beyond it raises
    [RecursionError], which nothing in the function catches. *)
Fixpoint collect_reports (limit : nat) (manager_map : gmap string (list worker))
    (mgr_id : string) : Py.exn + list worker :=
  match limit with
  | 0 => inl Py.RecursionError
  | S limit' =>
      for_reports (collect_reports limit' manager_map)
                  (direct_reports_of manager_map mgr_id) []
  end.

Definition get_all_reports_under_manager (limit : nat) (workers : list worker)
    (manager_id : string) : Py.exn + list worker :=
  let '(manager_map, worker_map) := build_org_hierarchy workers in
  collect_reports limit manager_map manager_id.

(** The list a call returned; nothing for a call that raised. *)
Definition returned (r : Py.exn + list worker) : list worker :=
  match r with
  | inr l => l
  | inl _ => []
  end.

(** A small record constructor for examples: a worker with an
    [associateOID], a manager reference and an activity flag. *)
Definition mk_worker (oid : string) (mgr : Py.optstr) (active : bool)
    (name : string) (mails : list (string * string)) : worker :=
  {| associateOID := Some oid; workerID := None;
     manager_id_primary := mgr; manager_id_secondary := None;
     status_active := active; display_name := name;
     given_name := name; family_name := EmptyString; emails := mails |}.

Definition w1 := mk_worker "1" None true "Ann" [].
Definition w2 := mk_worker "2" (Some "1"%string) true "Bob" [].
Definition w3 := mk_worker "3" (Some "2"%string) true "Cy" [].

(** ** The reporting relation of a worker list *)

(** The manager a worker of the list [ws] is filed under, if any. *)
Definition manager_in (ws : list worker) (w : worker) : option string :=
  manager_of (id_map ws) w.

(** The direct reports of [m]: the workers filed under [m], in input
    order. *)
Definition children (ws : list worker) (m : string) : list worker :=
  filter (fun w => manager_in ws w = Some m) ws.

(** [under ws m y]: [y] is a direct or indirect report of the manager
    identifier [m] in the worker list [ws]. *)
Inductive under (ws : list worker) (m : string) : worker -> Prop :=
| under_direct y :
    y ∈ ws -> manager_in ws y = Some m -> under ws m y
| under_step x k y :
    under ws m x -> worker_key x = Some k ->
    y ∈ ws -> manager_in ws y = Some k -> under ws m y.

(** The manager-reference graph has no cycle: no worker is a direct or
    indirect report of its own identifier. *)
Definition acyclic (ws : list worker) : Prop :=
  forall r i, r ∈ ws -> worker_key r = Some i -> ~ under ws i r.

(** No record occurs twice and no identifier is carried by two records. *)
Definition unique_ids (ws : list worker) : Prop :=
  NoDup ws /\
  forall r r' i, r ∈ ws -> r' ∈ ws ->
    worker_key r = Some i -> worker_key r' = Some i -> r = r'.

(** Big-step description of [collect_reports] on the direct-report lists of
    [ws]: [collects ws m l] when the call for [m] returns [l], and
    [collects_loop ws d l] when the loop over the direct reports [d],
    started with an empty accumulator, ends with [l]. *)
Inductive collects (ws : list worker) : string -> list worker -> Prop :=
| collects_call m l :
    collects_loop ws (children ws m) l -> collects ws m l
with collects_loop (ws : list worker) : list worker -> list worker -> Prop :=
| loop_done : collects_loop ws [] []
| loop_leaf r d l :
    worker_key r = None -> collects_loop ws d l ->
    collects_loop ws (r :: d) (r :: l)
| loop_node r i sub d l :
    worker_key r = Some i -> collects ws i sub -> collects_loop ws d l ->
    collects_loop ws (r :: d) (r :: sub ++ l).

Scheme collects_mut := Minimality for collects Sort Prop
  with collects_loop_mut := Minimality for collects_loop Sort Prop.

Combined Scheme collects_both from collects_mut, collects_loop_mut.

(** A chain of [n] nested calls below [m]: each worker reports to the
    previous one. *)
Inductive chain (ws : list worker) : string -> list worker -> Prop :=
| chain_nil m : chain ws m []
| chain_cons m r i c :
    r ∈ ws -> manager_in ws r = Some m -> worker_key r = Some i ->
    chain ws i c -> chain ws m (r :: c).

(** The reporting lines below [m] stay within the depth the interpreter
    allows: no chain of [limit] nested calls starts at [m]. *)
Definition shallow (limit : nat) (ws : list worker) (m : string) : Prop :=
  forall c, chain ws m c -> length c < limit.

(** Some worker with identifier [i] is a direct or indirect report of [i]. *)
Definition on_cycle (ws : list worker) (i : string) : Prop :=
  exists y, under ws i y /\ worker_key y = Some i.

(** A cycle of manager references can be reached from [m]: [m] is on a
    cycle, or some report of [m] has an identifier that is. *)
Definition reaches_cycle (ws : list worker) (m : string) : Prop :=
  on_cycle ws m
  \/ exists x i, under ws m x /\ worker_key x = Some i /\ on_cycle ws i.

(** What the loop over the direct reports [d] gathers: the reports
    themselves and everything below one of them. *)
Definition loop_members (ws d : list worker) (x : worker) : Prop :=
  x ∈ d \/ exists r i, r ∈ d /\ worker_key r = Some i /\ under ws i x.

(** Pre-order: a worker of the list is followed, later in the list, by each
    of its own direct reports. *)
Definition before_own_reports (ws l : list worker) : Prop :=
  forall r i r', r ∈ l -> worker_key r = Some i ->
    r' ∈ ws -> manager_in ws r' = Some i ->
    exists l1 l2 l3, l = l1 ++ r :: l2 ++ r' :: l3.

(** ** Collaborators *)

(** A TalentLMS user as returned by [client.get_users()]: the script reads
    [user.get("email")]. *)
Record lms_user := { user_email : Py.optstr }.

(** The response of [client.create_user]: the script reads
    [created.get('id')]. *)
Record account := { account_id : Py.value }.

(** The methods of [TalentLMSClient] (module [import_employees]) the script
    calls.  The client is an object with a state of its own; a call returns
    or raises, and leaves the client in a new state. *)
Class TalentLMSClient (C : Type) := {
  get_users : C -> (Py.exn + list lms_user) * C;
  create_user :
    Py.optstr -> Py.optstr -> string -> string -> string ->
    C -> (Py.exn + account) * C;
  add_user_to_course : Z -> Z -> C -> (Py.exn + unit) * C
}.

(** The names the script imports from [get_adp_info] and
    [sync_single_employee].  [get_workers] stands for the outcome of the call
    [get_workers()]: an exception, or the data with its ["workers"] entry. *)
Class Imports := {
  get_workers : Py.exn + option (list worker);
  find_worker_by_identifier : list worker -> string -> option worker;
  is_active_worker : worker -> bool;
  get_work_email : worker -> Py.optstr;
  worker_first_last : worker -> Py.optstr * Py.optstr;
  worker_full_name : worker -> string;
  COURSE_ID_ONBOARDING : Z
}.

(** ** Account emails *)

(** [email.strip().lower()]. *)
Definition normalize `{Interp : Py.Interpreter} (email : string) : string :=
  Py.lower (Py.strip email).

(** *** Trimming and case, as relations on ASCII text

    What "trimmed" and "case-insensitive" say about two strings, stated
    without the string methods, to compare [normalize] against. *)

Fixpoint all_space (s : string) : bool :=
  match s with
  | String c s' => Py.is_space c && all_space s'
  | EmptyString => true
  end.

Definition starts_with_space (s : string) : bool :=
  match s with
  | String c _ => Py.is_space c
  | EmptyString => false
  end.

Fixpoint ends_with_space (s : string) : bool :=
  match s with
  | String c EmptyString => Py.is_space c
  | String _ s' => ends_with_space s'
  | EmptyString => false
  end.

(** [t] is [s] without its leading and trailing white space: [s] is white
    space, then [t], then white space, and [t] neither starts nor ends with
    white space. *)
Definition trimmed (s t : string) : Prop :=
  exists p q,
    s = String.append p (String.append t q)
    /\ all_space p = true /\ all_space q = true
    /\ starts_with_space t = false /\ ends_with_space t = false.

(** Two characters are the same letter up to case: they are equal, or one
    is a capital A-Z and the other its small letter. *)
Definition same_letter (a b : ascii) : Prop :=
  a = b
  \/ (65 <= nat_of_ascii a <= 90 /\ nat_of_ascii b = nat_of_ascii a + 32)
  \/ (65 <= nat_of_ascii b <= 90 /\ nat_of_ascii a = nat_of_ascii b + 32).

(** Two strings are equal up to the case of their letters. *)
Inductive equal_ignoring_case : string -> string -> Prop :=
| ignoring_case_nil : equal_ignoring_case EmptyString EmptyString
| ignoring_case_cons a b s t :
    same_letter a b -> equal_ignoring_case s t ->
    equal_ignoring_case (String a s) (String b t).

(** The loop of [get_all_talentlms_emails] over the fetched users. *)
Definition talentlms_emails `{Interp : Py.Interpreter} (users : list lms_user)
    : gset string :=
  foldl (fun emails user =>
           match Py.truthy (user_email user) with
           | Some email => {[ normalize email ]} ∪ emails
           | None => emails
           end) ∅ users.

(** [get_all_talentlms_emails(client)]: the call may raise. *)
Definition get_all_talentlms_emails `{Interp : Py.Interpreter}
    `{Cl : TalentLMSClient C} (client : C)
    : (Py.exn + gset string) * C :=
  match get_users client with
  | (inr users, client') => (inr (talentlms_emails users), client')
  | (inl e, client') => (inl e, client')
  end.

(** ** The filtering pipeline *)

(** How a call ends: it returns, it leaves through [sys.exit], or an
    exception propagates. *)
Inductive outcome (A : Type) :=
| Return (a : A)
| SystemExit (code : Z)
| Raise (e : Py.exn).
Arguments Return {A} a.
Arguments SystemExit {A} code.
Arguments Raise {A} e.

(** [get_active_adp_workers(manager_identifier)], with [limit] the number
    of nested calls the interpreter still allows to the subtree collector;
    an exception of the loader or of the collector propagates.  Console
    output of this function is left out. *)
Definition get_active_adp_workers `{Imp : Imports} (limit : nat)
    (manager_identifier : Py.optstr) : outcome (list worker) :=
  match get_workers with
  | inl e => Raise e
  | inr data =>
      let workers := default [] data in
      let active_workers := filter (fun w => is_active_worker w = true) workers in
      match Py.truthy manager_identifier with
      | Some identifier =>
          match find_worker_by_identifier workers identifier with
          | None => SystemExit 1
          | Some manager_worker =>
              match worker_key manager_worker with
              | None => SystemExit 1
              | Some manager_id =>
                  match get_all_reports_under_manager limit workers manager_id with
                  | inr manager_reports =>
                      Return (filter (fun w => w ∈ manager_reports) active_workers)
                  | inl e => Raise e
                  end
              end
          end
      | None => Return active_workers
      end
  end.




(** ** The reconciler *)

(** What the reconciler does to the outside: lines it prints and calls it
    makes on the client, in order. *)
Inductive event :=
| PrintNoWorkEmail (full_name : string)
| PrintAlreadyHasAccount (full_name email : string)
| PrintCreating (full_name email : string)
| CallCreateUser (first_name last_name : Py.optstr) (email login password : string)
| PrintCreatedUser (user_id : Py.value)
| CallAddUserToCourse (user_id course_id : Z)
| PrintEnrolled (course_id : Z)
| PrintEnrollmentFailed (e : Py.exn)
| PrintErrorCreating (e : Py.exn)
| PrintSummary (total created skipped errors : nat).

(** The store of a run of [sync_workers_to_talentlms]: the client, the
    output so far, the two argument objects (the worker list and the set of
    existing emails) and the three local counters. *)
Record store (C : Type) := Store {
  client : C;
  out : list event;
  workers_obj : list worker;
  existing_emails_obj : gset string;
  created_count : nat;
  skipped_count : nat;
  error_count : nat
}.
Arguments Store {C}.
Arguments client {C}.
Arguments out {C}.
Arguments workers_obj {C}.
Arguments existing_emails_obj {C}.
Arguments created_count {C}.
Arguments skipped_count {C}.
Arguments error_count {C}.

(** Computations on the store that return or raise; the store survives an
    exception. *)
Definition M (C A : Type) : Type := store C -> (Py.exn + A) * store C.

Definition ret {C A} (a : A) : M C A := fun s => (inr a, s).

Definition bind {C A B} (m : M C A) (k : A -> M C B) : M C B :=
  fun s =>
    match m s with
    | (inr a, s') => k a s'
    | (inl e, s') => (inl e, s')
    end.

(** [try: body except Exception as e: handler(e)]. *)
Definition try_except {C A} (body : M C A) (handler : Py.exn -> M C A) : M C A :=
  fun s =>
    match body s with
    | (inr a, s') => (inr a, s')
    | (inl e, s') => handler e s'
    end.

Notation "'let!' x ':=' m 'in' k" := (bind m (fun x => k))
  (at level 10, x name, k at level 200).
Notation "m >> k" := (bind m (fun _ => k))
  (at level 90, right associativity).

Definition emit {C} (ev : event) : M C unit :=
  fun s => (inr tt, Store (client s) (out s ++ [ev]) (workers_obj s)
                          (existing_emails_obj s) (created_count s)
                          (skipped_count s) (error_count s)).

Definition incr_created {C} : M C unit :=
  fun s => (inr tt, Store (client s) (out s) (workers_obj s)
                          (existing_emails_obj s) (created_count s + 1)
                          (skipped_count s) (error_count s)).

Definition incr_skipped {C} : M C unit :=
  fun s => (inr tt, Store (client s) (out s) (workers_obj s)
                          (existing_emails_obj s) (created_count s)
                          (skipped_count s + 1) (error_count s)).

Definition incr_error {C} : M C unit :=
  fun s => (inr tt, Store (client s) (out s) (workers_obj s)
                          (existing_emails_obj s) (created_count s)
                          (skipped_count s) (error_count s + 1)).

(** A call on the client: the call is recorded, the client changes state,
    and the call returns or raises. *)
Definition call {C A} (ev : event) (method : C -> (Py.exn + A) * C) : M C A :=
  fun s =>
    let '(r, c) := method (client s) in
    (r, Store c (out s ++ [ev]) (workers_obj s) (existing_emails_obj s)
              (created_count s) (skipped_count s) (error_count s)).

Definition existing_emails {C} : M C (gset string) :=
  fun s => (inr (existing_emails_obj s), s).

(** [int(user_id)] inside a [try]. *)
Definition to_int `{Interp : Py.Interpreter} {C} (v : Py.value) : M C Z :=
  fun s => (Py.int v, s).

(** The name fallback: both parts blank gives ["Unknown"] / ["User"]. *)
Definition name_or_placeholder (names : Py.optstr * Py.optstr)
    : Py.optstr * Py.optstr :=
  match Py.truthy names.1, Py.truthy names.2 with
  | None, None => (Some "Unknown"%string, Some "User"%string)
  | _, _ => names
  end.

Section Reconciler.

Context `{Interp : Py.Interpreter} `{Imp : Imports} `{Cl : TalentLMSClient C}.

(** The inner [try] of the loop body: the enrollment into the onboarding
    course. *)
Definition enroll (user_id : Py.value) : M C unit :=
  try_except
    (let! uid := to_int user_id in
     call (CallAddUserToCourse uid COURSE_ID_ONBOARDING)
          (add_user_to_course uid COURSE_ID_ONBOARDING) >>
     emit (PrintEnrolled COURSE_ID_ONBOARDING))
    (fun e => emit (PrintEnrollmentFailed e)).

(** The outer [try] of the loop body: account creation, then enrollment. *)
Definition create_account (first_name last_name : Py.optstr) (email : string)
    : M C unit :=
  try_except
    (let! created :=
       call (CallCreateUser first_name last_name email email "Testpassword1")
            (create_user first_name last_name email email "Testpassword1") in
     let user_id := account_id created in
     emit (PrintCreatedUser user_id) >>
     (if Py.value_truthy user_id then enroll user_id else ret tt) >>
     incr_created)
    (fun e => emit (PrintErrorCreating e) >> incr_error).

(** One iteration of [for worker in workers]. *)
Definition sync_worker (worker : worker) : M C unit :=
  let full_name := worker_full_name worker in
  match Py.truthy (get_work_email worker) with
  | None =>
      emit (PrintNoWorkEmail full_name) >> incr_skipped
  | Some email =>
      let email_lower := normalize email in
      let! existing := existing_emails in
      if decide (email_lower ∈ existing) then
        emit (PrintAlreadyHasAccount full_name email) >> incr_skipped
      else
        let '(first_name, last_name) :=
          name_or_placeholder (worker_first_last worker) in
        emit (PrintCreating full_name email) >>
        create_account first_name last_name email
  end.

(** The loop. *)
Fixpoint for_workers (workers : list worker) : M C unit :=
  match workers with
  | [] => ret tt
  | worker :: rest => sync_worker worker >> for_workers rest
  end.

(** The summary block. *)
Definition summary (total : nat) : M C unit :=
  fun s => emit (PrintSummary total (created_count s) (skipped_count s)
                              (error_count s)) s.

(** [sync_workers_to_talentlms(workers, existing_emails, client)]: the three
    counters start at zero. *)
Definition sync_workers_to_talentlms (workers : list worker)
    (existing_emails : gset string) (client : C) : (Py.exn + unit) * store C :=
  (for_workers workers >> summary (length workers))
    (Store client [] workers existing_emails 0 0 0).

(** [main()], with the value of [--manager] and the number [limit] of
    nested calls the interpreter still allows to the subtree collector.
    Nothing in [main] catches an exception. *)
Definition main (limit : nat) (args_manager : Py.optstr) (client : C)
    : outcome unit :=
  match get_all_talentlms_emails client with
  | (inl e, _) => Raise e
  | (inr existing_emails, client) =>
      match get_active_adp_workers limit args_manager with
      | Raise e => Raise e
      | SystemExit code => SystemExit code
      | Return active_workers =>
          match active_workers with
          | [] => Return tt
          | _ :: _ =>
              match sync_workers_to_talentlms active_workers existing_emails client with
              | (inl e, _) => Raise e
              | (inr _, _) => Return tt
              end
          end
      end
  end.

(** The store after an iteration that printed and called [evs], left the
    client as [c] and added [dc], [ds], [de] to the three counters. *)
Definition after (s : store C) (c : C) (evs : list event) (dc ds de : nat)
    : store C :=
  Store c (out s ++ evs) (workers_obj s) (existing_emails_obj s)
        (created_count s + dc) (skipped_count s + ds) (error_count s + de).

(** The first and last name passed to [create_user]. *)
Definition first_name_of (w : worker) : Py.optstr := (name_or_placeholder (worker_first_last w)).1.
Definition last_name_of (w : worker) : Py.optstr := (name_or_placeholder (worker_first_last w)).2.

(** The events every creation attempt starts with. *)
Definition creation_prefix (w : worker) (email : string) : list event :=
  [PrintCreating (worker_full_name w) email;
   CallCreateUser (first_name_of w) (last_name_of w) email email "Testpassword1"].

(** The creation call for [w] from the store [s] returned [created]. *)
Definition creation_returned (w : worker) (s : store C) (created : account) : Prop :=
  exists email c1,
    Py.truthy (get_work_email w) = Some email
    /\ (normalize email ∉ existing_emails_obj s)
    /\ (create_user (first_name_of w) (last_name_of w) email email
                     "Testpassword1" (client s)
         = (inr created, c1)).

End Reconciler.


Definition is_creation_call (ev : event) : bool :=
  match ev with CallCreateUser _ _ _ _ _ => true | _ => false end.

Definition is_enrollment_call (ev : event) : bool :=
  match ev with CallAddUserToCourse _ _ => true | _ => false end.

(** The creation calls among the events. *)
Definition creation_calls (evs : list event) : list event :=
  filter (fun ev => is_creation_call ev = true) evs.

(** The enrollment calls among the events. *)
Definition enrollment_calls (evs : list event) : list event :=
  filter (fun ev => is_enrollment_call ev = true) evs.

(** The worker has a work email that no existing account carries: the case
    in which the loop body reaches the creation call. *)
Definition lacks_account `{Interp : Py.Interpreter} `{Imp : Imports} (existing : gset string) (w : worker) : Prop :=
  match Py.truthy (get_work_email w) with
  | Some email => normalize email ∉ existing
  | None => False
  end.

#[global] Instance lacks_account_dec `{Interp : Py.Interpreter} `{Imp : Imports} existing w :
  Decision (lacks_account existing w).
Proof. unfold lacks_account. destruct (Py.truthy (get_work_email w)); apply _. Defined.

(** The creation call the loop body issues for a worker with work email
    [email]. *)
Definition creation_call_of `{Imp : Imports} (w : worker) : event :=
  let email := default EmptyString (Py.truthy (get_work_email w)) in
  let '(first_name, last_name) := name_or_placeholder (worker_first_last w) in
  CallCreateUser first_name last_name email email "Testpassword1".

(** ** Concrete collaborators *)

(** Modelled from the spec: [get_work_email] of [sync_single_employee], not
    among the sources.  "Pick the contact entry tagged "work"; if multiple,
    first wins; if none", there is no work email. *)
Fixpoint first_work_email (mails : list (string * string)) : Py.optstr :=
  match mails with
  | (tag, address) :: rest =>
      if decide (tag = "work"%string) then Some address else first_work_email rest
  | [] => None
  end.

(** Modelled from the spec: the matching rule of [find_worker_by_identifier]
    of [get_adp_info], not among the sources: "exact identifier match and
    case-insensitive email match". *)
Definition matches_identifier `{Interp : Py.Interpreter} (identifier : string)
    (w : worker) : bool :=
  bool_decide (worker_key w = Some identifier)
  || existsb (fun mail => bool_decide (Py.lower mail.2 = Py.lower identifier))
             (emails w).

(** Modelled from the spec: [find_worker_by_identifier] of [get_adp_info],
    not among the sources: "find the single matching record"; an ambiguous
    identifier or one that matches nothing finds no record. *)
Definition find_single_worker `{Interp : Py.Interpreter} (workers : list worker)
    (identifier : string)
    : option worker :=
  match filter (fun w => matches_identifier identifier w = true) workers with
  | [w] => Some w
  | _ => None
  end.

(** Collaborators built on the fields of the worker record, for a given
    outcome of [get_workers()] and a given onboarding course. *)
Definition record_imports `{Interp : Py.Interpreter}
    (data : Py.exn + option (list worker)) (course : Z)
    : Imports :=
  {| get_workers := data;
     find_worker_by_identifier := find_single_worker;
     is_active_worker := status_active;
     get_work_email := fun w => first_work_email (emails w);
     worker_first_last := fun w => (Some (given_name w), Some (family_name w));
     worker_full_name := display_name;
     COURSE_ID_ONBOARDING := course |}.

(** A client that answers from a script: the users it lists, and the
    replies to the successive creation and enrollment calls.  A call beyond
    the script raises. *)
Record scripted := Scripted {
  users_reply : Py.exn + list lms_user;
  create_replies : list (Py.exn + account);
  enroll_replies : list (Py.exn + unit)
}.

#[global] Instance scripted_client : TalentLMSClient scripted :=
  {| get_users := fun c => (users_reply c, c);
     create_user := fun _ _ _ _ _ c =>
       match create_replies c with
       | r :: rest => (r, Scripted (users_reply c) rest (enroll_replies c))
       | [] => (inl (Py.Error "unscripted"), c)
       end;
     add_user_to_course := fun _ _ c =>
       match enroll_replies c with
       | r :: rest => (r, Scripted (users_reply c) (create_replies c) rest)
       | [] => (inl (Py.Error "unscripted"), c)
       end |}.

(** ** Sample data *)

Definition onboarding : Z := 125.

Definition w_nomail := mk_worker "10" None true "Dee" [("home", "dee@home.org")]%string.
Definition w_jane := mk_worker "11" None true "Jane" [("work", " Jane@X.com ")]%string.
Definition w_joe := mk_worker "12" None true "Joe" [("work", "joe@x.com")]%string.
Definition w_joseph := mk_worker "13" None true "Joseph" [("work", "JOE@X.COM")]%string.

(** Two records that carry the identifier 2: an inactive one that reports
    to 1, and an active one without a manager. *)
Definition w2_inactive := mk_worker "2" (Some "1"%string) false "Bob" [].
Definition w2_active := mk_worker "2" None true "Bob" [].


(** A ranking of the identifiers of the scenario. *)
Definition chain_rank (i : string) : nat :=
  if decide (i = "1"%string) then 3
  else if decide (i = "2"%string) then 2
  else if decide (i = "3"%string) then 1 else 0.

(** The list of the scenario with the record of worker 2 listed twice. *)
Definition ws_repeated : list worker := [w1; w2; w2; w3].

(** A reporting line of any depth: worker [k + 1] reports to worker [k].
    The identifier of worker [k] is [k] letters followed by a zero. *)
Fixpoint id_of (k : nat) : string :=
  match k with
  | 0 => "0"
  | S k' => String "i" (id_of k')
  end.

Definition node (k : nat) : worker :=
  mk_worker (id_of k)
            (match k with 0 => None | S k' => Some (id_of k') end)
            true "Worker" [].

Definition deep_chain (n : nat) : list worker := map node (seq 0 (S n)).



(** Collaborators over the sample data. *)
Definition imports_of `{Interp : Py.Interpreter} (workers : list worker) : Imports :=
  record_imports (inr (Some workers)) onboarding.

(** A client whose creation call raises. *)
Definition client_refusing : scripted :=
  Scripted (inr []) [inl (Py.Error "refused")] [].

(** A client that creates account 42 and whose enrollment call raises. *)
Definition client_course_closed : scripted :=
  Scripted (inr []) [inr {| account_id := Py.VStr "42" |}]
           [inl (Py.Error "course closed")].

(** A client that answers the creation call with an id that is no number. *)
Definition client_odd_id : scripted :=
  Scripted (inr []) [inr {| account_id := Py.VStr "abc" |}] [].

(** A client that creates accounts 7 and 8 and enrolls both. *)
Definition client_two_accounts : scripted :=
  Scripted (inr [])
           [inr {| account_id := Py.VStr "7" |}; inr {| account_id := Py.VInt 8 |}]
           [inr tt; inr tt].

(** A client that lists no user and creates nothing. *)
Definition client_idle : scripted := Scripted (inr []) [] [].

(** * Properties *)

Example strip_lower_ex :
  Py.ascii_lower (Py.ascii_strip " Jane@X.com ") = "jane@x.com"%string.
Proof. reflexivity. Qed.

Example int_ex :
  Py.ascii_int " 1_024 " = Some 1024%Z /\ Py.ascii_int "abc" = None
  /\ Py.ascii_int "-7" = Some (-7)%Z /\ Py.ascii_int "1__0" = None.
Proof. repeat split; reflexivity. Qed.

Example scenario_chain :
  get_all_reports_under_manager 4 [w1; w2; w3] "1" = inr [w2; w3].
Proof. vm_compute. reflexivity. Qed.

Lemma filter_none {A} (P : A -> Prop) `{forall x, Decision (P x)} (l : list A) :
  (forall x, x ∈ l -> ~ P x) -> filter P l = [].
Proof.
  induction l as [|a l IH]; intros Hl; [done|].
  rewrite filter_cons_False by (apply Hl; by left).
  apply IH. intros x Hx. apply Hl. by right.
Qed.

Lemma truthy_Some (v : Py.optstr) s :
  Py.truthy v = Some s <-> v = Some s /\ s <> EmptyString.
Proof.
  unfold Py.truthy. destruct v as [t|]; [|split; [done | by intros [? _]]].
  destruct (decide (t = EmptyString)) as [->|Hne].
  - split; [done | intros [[= <-] ?]; done].
  - split; [by intros [= <-] | by intros [[= <-] _]].
Qed.

(** ** The org hierarchy of a worker list *)

Section Hierarchy.

Variable ws : list worker.

(** *** The id map and the manager a worker is filed under *)

Lemma id_map_acc (l : list worker) acc k :
  is_Some (foldl register_worker acc l !! k)
  <-> is_Some (acc !! k) \/ exists w, w ∈ l /\ worker_id w = k.
Proof.
  revert acc. induction l as [|w l IH]; intros acc; simpl.
  - split; [by left|]. intros [?|(w & Hw & _)]; [done|]. by apply elem_of_nil in Hw.
  - rewrite IH. unfold register_worker.
    destruct (decide (worker_id w = k)) as [<-|Hne].
    + rewrite lookup_insert_eq. split.
      * intros _. right. exists w. split; [by left | done].
      * intros _. left. by eexists.
    + rewrite lookup_insert_ne by done. split.
      * intros [?|(w' & Hw' & Hk)]; [by left|].
        right. exists w'. split; [by right | done].
      * intros [?|(w' & Hw' & Hk)]; [by left|].
        apply elem_of_cons in Hw' as [->|Hw']; [done|].
        right. by exists w'.
Qed.

(** The id map holds an entry for every identifier a worker of the list
    carries, and for no other. *)
Lemma id_map_lookup k :
  is_Some (id_map ws !! k) <-> exists w, w ∈ ws /\ worker_id w = k.
Proof.
  unfold id_map. rewrite id_map_acc, lookup_empty. split.
  - intros [[? [=]]|?]; done.
  - by right.
Qed.

(** A worker is filed under [m] when [m] is its manager identifier, [m] is
    not its own identifier, and a worker of the list carries [m]. *)
Lemma manager_in_spec w m :
  manager_in ws w = Some m
  <-> manager_key w = Some m /\ worker_key w <> Some m
      /\ exists w', w' ∈ ws /\ worker_key w' = Some m.
Proof.
  unfold manager_in, manager_of.
  destruct (manager_key w) as [k|] eqn:Hk; [|split; [done | by intros [? _]]].
  assert (Hne : k <> EmptyString).
  { unfold manager_key in Hk. by apply truthy_Some in Hk as [_ ?]. }
  assert (Hres : is_Some (id_map ws !! Some k)
                 <-> exists w', w' ∈ ws /\ worker_key w' = Some k).
  { rewrite id_map_lookup. unfold worker_key.
    split; intros (w' & Hin & Hw'); exists w'; (split; [done|]).
    - by apply truthy_Some.
    - by apply truthy_Some in Hw' as [? _]. }
  destruct (decide _) as [[Hsome Hself]|Hno].
  - split.
    + intros [= <-]. by rewrite <- Hres.
    + by intros [[= <-] _].
  - split; [done|]. intros [[= <-] [Hself Hex]]. destruct Hno.
    by rewrite Hres.
Qed.

Lemma manager_in_key w m : manager_in ws w = Some m -> manager_key w = Some m.
Proof. intros H. by apply manager_in_spec in H as [? _]. Qed.

(** *** The direct-report lists *)

Lemma file_reports_acc wm (l : list worker) mm m :
  direct_reports_of (foldl (file_report wm) mm l) m
  = direct_reports_of mm m ++ filter (fun w => manager_of wm w = Some m) l.
Proof.
  revert mm. induction l as [|w l IH]; intros mm; simpl.
  - by rewrite app_nil_r.
  - rewrite IH, filter_cons. unfold file_report.
    destruct (manager_of wm w) as [k|] eqn:Hk.
    + destruct (decide (k = m)) as [->|Hne].
      * rewrite decide_True by done.
        unfold direct_reports_of at 1. rewrite lookup_insert_eq. simpl.
        by rewrite <- app_assoc.
      * rewrite decide_False by congruence.
        unfold direct_reports_of at 1. by rewrite lookup_insert_ne.
    + by rewrite decide_False.
Qed.

(** The direct-report list of the built hierarchy. *)
Lemma build_direct_reports m :
  direct_reports_of (build_org_hierarchy ws).1 m = children ws m.
Proof.
  unfold build_org_hierarchy. simpl. rewrite file_reports_acc.
  unfold direct_reports_of at 1. by rewrite lookup_empty.
Qed.

Lemma elem_of_children r m :
  r ∈ children ws m <-> r ∈ ws /\ manager_in ws r = Some m.
Proof. unfold children. rewrite list_elem_of_filter. tauto. Qed.

Lemma under_in m y : under ws m y -> y ∈ ws.
Proof. by destruct 1. Qed.

Lemma under_trans m x k y :
  under ws m x -> worker_key x = Some k -> under ws k y -> under ws m y.
Proof.
  intros Hx Hk Hy. induction Hy as [y Hin Hm | z j y _ IH Hj Hin Hm].
  - by eapply under_step.
  - eapply under_step; [exact IH | exact Hj | done | done].
Qed.

Lemma under_first m r j y :
  r ∈ ws -> manager_in ws r = Some m -> worker_key r = Some j ->
  under ws j y -> under ws m y.
Proof. intros Hin Hm Hj. eapply under_trans; [by apply under_direct | done]. Qed.

(** *** The loop and its accumulator *)

Lemma for_reports_acc rec d acc :
  for_reports rec d acc
  = match for_reports rec d [] with
    | inr l => inr (acc ++ l)
    | inl e => inl e
    end.
Proof.
  revert acc. induction d as [|r d IH]; intros acc; simpl.
  - by rewrite app_nil_r.
  - destruct (worker_key r) as [i|].
    + destruct (rec i) as [e|sub]; [done|].
      rewrite (IH ((acc ++ [r]) ++ sub)), (IH (r :: sub)).
      destruct (for_reports rec d []) as [e|l]; simpl; [done|].
      f_equal. by rewrite <- !app_assoc.
    + rewrite (IH (acc ++ [r])), (IH [r]).
      destruct (for_reports rec d []) as [e|l]; simpl; [done|].
      f_equal. by rewrite <- !app_assoc.
Qed.

Lemma for_reports_mono (rec rec' : string -> Py.exn + list worker) d acc l :
  (forall i s, rec i = inr s -> rec' i = inr s) ->
  for_reports rec d acc = inr l -> for_reports rec' d acc = inr l.
Proof.
  intros Hrec. revert acc. induction d as [|r d IH]; intros acc; simpl; [done|].
  destruct (worker_key r) as [i|]; [|apply IH].
  destruct (rec i) as [e|sub] eqn:Hi; [done|].
  rewrite (Hrec _ _ Hi). apply IH.
Qed.

(** The loop raises what a recursive call for one of the reports raises. *)
Lemma for_reports_raises rec d acc e :
  for_reports rec d acc = inl e ->
  exists r i, r ∈ d /\ worker_key r = Some i /\ rec i = inl e.
Proof.
  revert acc. induction d as [|r d IH]; intros acc; simpl; [done|].
  destruct (worker_key r) as [i|] eqn:Hk.
  - destruct (rec i) as [e'|sub] eqn:Hi.
    + intros [= <-]. exists r, i. by rewrite elem_of_cons; auto.
    + intros H. destruct (IH _ H) as (r' & i' & ? & ? & ?).
      exists r', i'. by rewrite elem_of_cons; auto.
  - intros H. destruct (IH _ H) as (r' & i' & ? & ? & ?).
    exists r', i'. by rewrite elem_of_cons; auto.
Qed.

(** The loop raises as soon as a recursive call for one of the reports
    does. *)
Lemma for_reports_fails rec d acc r i e :
  r ∈ d -> worker_key r = Some i -> rec i = inl e ->
  exists e', for_reports rec d acc = inl e'.
Proof.
  intros Hr Hk Hi. revert acc.
  induction d as [|r0 d IH]; intros acc; [by apply elem_of_nil in Hr|].
  simpl. apply elem_of_cons in Hr as [<- | Hr].
  - rewrite Hk, Hi. by eexists.
  - destruct (worker_key r0) as [i0|]; [|by apply IH].
    destruct (rec i0) as [e0|sub]; [by eexists | by apply IH].
Qed.

Lemma for_reports_loop (rec : string -> Py.exn + list worker) d l :
  (forall i s, rec i = inr s -> collects ws i s) ->
  for_reports rec d [] = inr l -> collects_loop ws d l.
Proof.
  intros Hrec. revert l. induction d as [|r d IH]; intros l; simpl.
  - intros [= <-]. constructor.
  - destruct (worker_key r) as [i|] eqn:Hk.
    + destruct (rec i) as [e|sub] eqn:Hi; [done|].
      rewrite for_reports_acc.
      destruct (for_reports rec d []) as [e|l']; simpl; [done|].
      intros [= <-]. simpl. apply loop_node with i; auto.
    + rewrite for_reports_acc.
      destruct (for_reports rec d []) as [e|l']; simpl; [done|].
      intros [= <-]. simpl. apply loop_leaf; auto.
Qed.

(** The loop, in closed form: each direct report followed by what the
    recursive call returns for it. *)
Lemma for_reports_flat (rec : string -> Py.exn + list worker) d l :
  for_reports rec d [] = inr l ->
  l = flat_map (fun r => r :: match worker_key r with
                              | Some i => returned (rec i)
                              | None => []
                              end) d.
Proof.
  revert l. induction d as [|r d IH]; intros l; simpl.
  - by intros [= <-].
  - destruct (worker_key r) as [i|].
    + destruct (rec i) as [e|sub]; [done|].
      rewrite for_reports_acc.
      destruct (for_reports rec d []) as [e|l']; simpl; [done|].
      intros [= <-]. simpl. by rewrite (IH l').
    + rewrite for_reports_acc.
      destruct (for_reports rec d []) as [e|l']; simpl; [done|].
      intros [= <-]. simpl. by rewrite (IH l').
Qed.

(** *** The recursion against the big-step relation *)

Let manager_map := (build_org_hierarchy ws).1.

Lemma collect_reports_sound n m l :
  collect_reports n manager_map m = inr l -> collects ws m l.
Proof.
  revert m l. induction n as [|n IH]; intros m l; simpl; [done|].
  unfold manager_map. rewrite build_direct_reports. intros H.
  constructor. eapply for_reports_loop; [|exact H]. exact IH.
Qed.

Lemma collect_reports_S n m l :
  collect_reports n manager_map m = inr l ->
  collect_reports (S n) manager_map m = inr l.
Proof.
  revert m l. induction n as [|n IH]; intros m l; [done|].
  intros H. simpl in *. eapply for_reports_mono; [|exact H].
  intros i s Hs. exact (IH _ _ Hs).
Qed.

Lemma collect_reports_unfold n m l :
  collect_reports (S n) manager_map m = inr l ->
  l = flat_map (fun r => r :: match worker_key r with
                              | Some i => returned (collect_reports n manager_map i)
                              | None => []
                              end) (children ws m).
Proof.
  simpl. unfold manager_map at 2. rewrite build_direct_reports.
  apply for_reports_flat.
Qed.


(** *** Chains of nested calls *)

Lemma chain_under m c x : chain ws m c -> x ∈ c -> under ws m x.
Proof.
  induction 1 as [|m r i c Hin Hm Hk _ IH]; [by rewrite elem_of_nil|].
  rewrite elem_of_cons. intros [->|Hx].
  - by apply under_direct.
  - eapply under_first; eauto.
Qed.

Lemma chain_in m c x : chain ws m c -> x ∈ c -> x ∈ ws.
Proof. intros Hc Hx. eapply under_in, chain_under; eauto. Qed.

Lemma chain_NoDup m c : acyclic ws -> chain ws m c -> NoDup c.
Proof.
  intros Hac. induction 1 as [|m r i c Hin Hm Hk Hc IH]; constructor; [|done].
  intros Hr. eapply Hac; [exact Hin | exact Hk |]. eapply chain_under; eauto.
Qed.

Lemma chain_length m c : acyclic ws -> chain ws m c -> length c <= length ws.
Proof.
  intros Hac Hc. apply submseteq_length, NoDup_submseteq.
  - eapply chain_NoDup; eauto.
  - intros x Hx. eapply chain_in; eauto.
Qed.

Lemma chain_take m c n : chain ws m c -> chain ws m (take n c).
Proof.
  intros Hc. revert n. induction Hc as [|m r i c Hin Hm Hk _ IH]; intros n.
  - rewrite take_nil. constructor.
  - destruct n as [|n]; simpl; [constructor|]. by econstructor.
Qed.

(** The collector raises exactly when the nested calls go as deep as the
    interpreter allows: there is a chain of [n] workers below [m], each one
    a direct report of the one before; and what it raises is
    [RecursionError]. *)
Lemma collect_reports_raises n m e :
  collect_reports n manager_map m = inl e ->
  e = Py.RecursionError /\ exists c, length c = n /\ chain ws m c.
Proof.
  revert m. induction n as [|n IH]; intros m; simpl.
  - intros [= <-]. split; [done|]. exists []. split; [done | constructor].
  - unfold manager_map. rewrite build_direct_reports. intros H.
    apply for_reports_raises in H as (r & i & Hr & Hk & Hi).
    apply elem_of_children in Hr as [Hin Hm].
    destruct (IH _ Hi) as (-> & c & Hlen & Hc). split; [done|].
    exists (r :: c). split; [simpl; lia | by econstructor].
Qed.

Lemma collect_reports_deep n m c :
  chain ws m c -> length c = n ->
  collect_reports n manager_map m = inl Py.RecursionError.
Proof.
  intros Hc. revert n. induction Hc as [|m r i c Hin Hm Hk _ IH]; intros n Hn.
  - by subst n.
  - simpl in Hn. subst n. specialize (IH _ eq_refl).
    destruct (collect_reports (S (length c)) manager_map m) as [e|l] eqn:H.
    + by apply collect_reports_raises in H as [-> _].
    + exfalso. simpl in H. unfold manager_map in H at 2.
      rewrite build_direct_reports in H.
      destruct (for_reports_fails (collect_reports (length c) manager_map)
                  (children ws m) [] r i _ ltac:(by apply elem_of_children) Hk IH)
        as [e' He'].
      fold manager_map in He'. congruence.
Qed.

Lemma collect_reports_raises_iff n m :
  (exists e, collect_reports n manager_map m = inl e)
  <-> exists c, length c = n /\ chain ws m c.
Proof.
  split.
  - intros [e He]. by apply collect_reports_raises in He as [_ ?].
  - intros (c & Hlen & Hc). eexists. by eapply collect_reports_deep.
Qed.

Lemma collect_reports_terminates n m :
  acyclic ws -> length ws < n ->
  exists l, collect_reports n manager_map m = inr l.
Proof.
  intros Hac Hn.
  destruct (collect_reports n manager_map m) as [e|l] eqn:H; [|by exists l].
  apply collect_reports_raises in H as (_ & c & Hlen & Hc).
  apply chain_length in Hc; [lia | done].
Qed.

(** *** What the returned list contains *)

Lemma under_inv_first m y :
  under ws m y ->
  (y ∈ ws /\ manager_in ws y = Some m) \/
  exists r i, r ∈ ws /\ manager_in ws r = Some m /\ worker_key r = Some i /\
              under ws i y.
Proof.
  induction 1 as [y Hin Hm | x k y Hx IH Hk Hin Hm]; [by left|].
  right. destruct IH as [[Hxin Hxm] | (r & i & Hr & Hrm & Hri & Hu)].
  - exists x, k. repeat split; try done. by apply under_direct.
  - exists r, i. repeat split; try done. by eapply under_step.
Qed.

Lemma collects_members_both :
  (forall m l, collects ws m l -> forall x, x ∈ l <-> under ws m x) /\
  (forall d l, collects_loop ws d l -> forall x, x ∈ l <-> loop_members ws d x).
Proof.
  apply collects_both.
  - intros m l _ IH x. rewrite IH. unfold loop_members. split.
    + intros [Hx | (r & i & Hr & Hk & Hu)].
      * apply elem_of_children in Hx as [? ?]. by apply under_direct.
      * apply elem_of_children in Hr as [? ?]. by eapply under_first.
    + intros Hu. destruct (under_inv_first _ _ Hu)
        as [[? ?] | (r & i & ? & ? & ? & ?)].
      * left. by apply elem_of_children.
      * right. exists r, i. by rewrite elem_of_children.
  - intros x. unfold loop_members. split; [by rewrite elem_of_nil|].
    intros [Hx | (r & i & Hr & _)];
      by apply elem_of_nil in Hx || apply elem_of_nil in Hr.
  - intros r d l Hk _ IH x. rewrite elem_of_cons, IH. unfold loop_members.
    split.
    + intros [-> | [Hx | (r' & i & Hr & Hi & Hu)]].
      * left. by left.
      * left. by right.
      * right. exists r', i. by rewrite elem_of_cons; auto.
    + intros [Hx | (r' & i & Hr & Hi & Hu)].
      * apply elem_of_cons in Hx as [-> | Hx]; auto.
      * apply elem_of_cons in Hr as [-> | Hr]; [congruence|].
        right. right. by exists r', i.
  - intros r i sub d l Hk _ IHsub _ IH x.
    rewrite elem_of_cons, elem_of_app, IHsub, IH. unfold loop_members.
    split.
    + intros [-> | [Hu | [Hx | (r' & i' & Hr & Hi & Hu)]]].
      * left. by left.
      * right. exists r, i. by rewrite elem_of_cons; auto.
      * left. by right.
      * right. exists r', i'. by rewrite elem_of_cons; auto.
    + intros [Hx | (r' & i' & Hr & Hi & Hu)].
      * apply elem_of_cons in Hx as [-> | Hx]; auto.
      * apply elem_of_cons in Hr as [-> | Hr].
        -- right. left. congruence.
        -- right. right. right. by exists r', i'.
Qed.

Lemma collects_members m l x :
  collects ws m l -> x ∈ l <-> under ws m x.
Proof. intros H. by apply collects_members_both. Qed.

Lemma loop_members_spec d l x :
  collects_loop ws d l -> x ∈ l <-> loop_members ws d x.
Proof. intros H. by apply collects_members_both. Qed.

(** *** Subtrees of an acyclic list do not overlap *)

(** A report of [m] has no descendant that reports to [m] again. *)
Lemma sibling_not_below m r j x :
  acyclic ws -> r ∈ ws -> manager_in ws r = Some m -> worker_key r = Some j ->
  under ws j x -> manager_in ws x <> Some m.
Proof.
  intros Hac Hin Hm Hj Hu Hxm.
  destruct Hu as [x Hxin Hxj | z k x Hz Hk Hxin Hxk].
  - assert (j = m) as -> by congruence.
    apply (Hac r m Hin Hj). by apply under_direct.
  - assert (k = m) as -> by congruence.
    apply (Hac z m (under_in _ _ Hz) Hk).
    apply (under_trans m r j z); [by apply under_direct | exact Hj | exact Hz].
Qed.

(** Two distinct reports of one manager have disjoint subtrees. *)
Lemma siblings_disjoint m r r' i j y :
  acyclic ws -> unique_ids ws ->
  r ∈ ws -> manager_in ws r = Some m -> worker_key r = Some i ->
  r' ∈ ws -> manager_in ws r' = Some m -> worker_key r' = Some j ->
  r <> r' -> under ws i y -> under ws j y -> False.
Proof.
  intros Hac [_ Huniq] Hin Hm Hi Hin' Hm' Hj Hne Hu.
  induction Hu as [y Hyin Hyi | x k y Hx IH Hk Hyin Hyk]; intros Hu'.
  - destruct Hu' as [y _ Hyj | x' k' y Hx' Hk' _ Hyk'].
    + apply Hne. apply (Huniq r r' i); congruence.
    + assert (k' = i) as -> by congruence.
      assert (x' = r) as -> by (apply (Huniq x' r i); eauto using under_in).
      by eapply (sibling_not_below m r' j r).
  - destruct Hu' as [y _ Hyj | x' k' y Hx' Hk' _ Hyk'].
    + assert (k = j) as -> by congruence.
      assert (x = r') as -> by (apply (Huniq x r' j); eauto using under_in).
      by eapply (sibling_not_below m r i r').
    + assert (k' = k) as -> by congruence.
      assert (x' = x) as -> by (apply (Huniq x' x k); eauto using under_in).
      auto.
Qed.

(** *** Order of the direct reports *)

Lemma collects_direct_order_both :
  acyclic ws ->
  (forall m l, collects ws m l ->
     filter (fun x => manager_in ws x = Some m) l = children ws m) /\
  (forall d l, collects_loop ws d l ->
     forall m, (forall r, r ∈ d -> r ∈ ws /\ manager_in ws r = Some m) ->
     filter (fun x => manager_in ws x = Some m) l = d).
Proof.
  intros Hac. apply collects_both.
  - intros m l _ IH. apply IH. intros r. apply elem_of_children.
  - done.
  - intros r d l Hk _ IH m Hd. rewrite filter_cons.
    destruct (Hd r) as [_ Hm]; [by left|].
    rewrite decide_True by done. f_equal. apply IH.
    intros r' Hr'. apply Hd. by right.
  - intros r i sub d l Hk Hsub _ _ IH m Hd. rewrite filter_cons.
    destruct (Hd r) as [Hin Hm]; [by left|].
    rewrite decide_True by done. f_equal. rewrite filter_app.
    replace (filter (fun x => manager_in ws x = Some m) sub) with (@nil worker).
    + simpl. apply IH. intros r' Hr'. apply Hd. by right.
    + symmetry. apply filter_none. intros x Hx.
      eapply sibling_not_below; eauto. by eapply collects_members.
Qed.

(** *** No descendant twice *)

Lemma collects_NoDup_both :
  acyclic ws -> unique_ids ws ->
  (forall m l, collects ws m l -> NoDup l) /\
  (forall d l, collects_loop ws d l ->
     forall m, (forall r, r ∈ d -> r ∈ ws /\ manager_in ws r = Some m) ->
     NoDup d -> NoDup l).
Proof.
  intros Hac Huniq. apply collects_both.
  - intros m l _ IH. apply (IH m).
    + intros r. apply elem_of_children.
    + apply NoDup_filter, Huniq.
  - constructor.
  - intros r d l Hk Hloop IH m Hd Hnd.
    apply NoDup_cons in Hnd as [Hr Hnd].
    destruct (Hd r) as [Hin Hm]; [by left|].
    constructor.
    + rewrite (loop_members_spec _ _ _ Hloop).
      intros [Hx | (r' & i & Hr' & Hi & Hu)]; [done|].
      destruct (Hd r') as [Hin' Hm']; [by right|].
      by eapply (sibling_not_below m r' i r).
    + apply (IH m); [|done]. intros r' Hr'. apply Hd. by right.
  - intros r i sub d l Hk Hsub IHsub Hloop IH m Hd Hnd.
    apply NoDup_cons in Hnd as [Hr Hnd].
    destruct (Hd r) as [Hin Hm]; [by left|].
    assert (Hd' : forall r', r' ∈ d -> r' ∈ ws /\ manager_in ws r' = Some m)
      by (intros r' Hr'; apply Hd; by right).
    constructor.
    + rewrite elem_of_app, (collects_members _ _ _ Hsub),
        (loop_members_spec _ _ _ Hloop).
      intros [Hu | [Hx | (r' & j & Hr' & Hj & Hu)]].
      * by apply (Hac r i).
      * done.
      * destruct (Hd' r' Hr') as [Hin' Hm'].
        by eapply (sibling_not_below m r' j r).
    + apply NoDup_app. split; [done|]. split; [|by apply (IH m)].
      intros x Hx. rewrite (collects_members _ _ _ Hsub) in Hx.
      rewrite (loop_members_spec _ _ _ Hloop).
      intros [Hxd | (r' & j & Hr' & Hj & Hu)].
      * destruct (Hd' x Hxd) as [_ Hxm].
        by eapply (sibling_not_below m r i x).
      * destruct (Hd' r' Hr') as [Hin' Hm'].
        eapply (siblings_disjoint m r r' i j x); eauto.
        intros ->. done.
Qed.

(** *** A report comes before its own reports *)

Lemma collects_preorder_both :
  (forall m l, collects ws m l -> before_own_reports ws l) /\
  (forall d l, collects_loop ws d l -> before_own_reports ws l).
Proof.
  apply collects_both; unfold before_own_reports.
  - auto.
  - intros r i r' Hr. by apply elem_of_nil in Hr.
  - intros r0 d l Hk0 _ IH r i r' Hr Hk Hin' Hm'.
    apply elem_of_cons in Hr as [-> | Hr]; [congruence|].
    destruct (IH r i r' Hr Hk Hin' Hm') as (l1 & l2 & l3 & ->).
    by exists (r0 :: l1), l2, l3.
  - intros r0 i0 sub d l Hk0 Hsub IHsub _ IH r i r' Hr Hk Hin' Hm'.
    apply elem_of_cons in Hr as [-> | Hr].
    + assert (i0 = i) as -> by congruence.
      assert (Hr' : r' ∈ sub).
      { rewrite (collects_members _ _ _ Hsub). by apply under_direct. }
      apply list_elem_of_split in Hr' as (s1 & s2 & ->).
      exists [], s1, (s2 ++ l). simpl. by rewrite <- app_assoc.
    + apply elem_of_app in Hr as [Hr | Hr].
      * destruct (IHsub r i r' Hr Hk Hin' Hm') as (l1 & l2 & l3 & ->).
        exists (r0 :: l1), l2, (l3 ++ l). simpl.
        rewrite <- !app_assoc. simpl. by rewrite <- !app_assoc.
      * destruct (IH r i r' Hr Hk Hin' Hm') as (l1 & l2 & l3 & ->).
        exists (r0 :: sub ++ l1), l2, l3. simpl. by rewrite <- !app_assoc.
Qed.

End Hierarchy.

(** ** The subtree collector on a worker list *)

Lemma get_all_reports_eq (limit : nat) (ws : list worker) (m : string) :
  get_all_reports_under_manager limit ws m
  = collect_reports limit (build_org_hierarchy ws).1 m.
Proof.
  unfold get_all_reports_under_manager.
  by destruct (build_org_hierarchy ws).
Qed.


(** On an acyclic list no reporting line is longer than the list. *)
Lemma acyclic_shallow (limit : nat) (ws : list worker) (m : string) :
  acyclic ws -> length ws < limit -> shallow limit ws m.
Proof.
  intros Hac Hlen c Hc. apply chain_length in Hc; [lia | done].
Qed.

Lemma shallow_returns (limit : nat) (ws : list worker) (m : string) :
  shallow limit ws m ->
  exists l, get_all_reports_under_manager limit ws m = inr l.
Proof.
  intros Hsh. rewrite get_all_reports_eq.
  destruct (collect_reports limit _ m) as [e|l] eqn:H; [|by exists l].
  apply collect_reports_raises in H as (_ & c & Hlen & Hc).
  specialize (Hsh c Hc). lia.
Qed.

(** A ranking of the identifiers that decreases from manager to report shows
    that a list is acyclic. *)
Lemma ranked_acyclic (ws : list worker) (rank : string -> nat) :
  (forall r i k, r ∈ ws -> worker_key r = Some i -> manager_key r = Some k ->
     rank i < rank k) ->
  acyclic ws.
Proof.
  intros Hrank.
  assert (Hlt : forall m y i, under ws m y -> worker_key y = Some i -> rank i < rank m).
  { intros m y i Hu. revert i.
    induction Hu as [y Hin Hm | x k y _ IH Hk Hin Hm]; intros i Hi;
      apply manager_in_key in Hm.
    - eauto.
    - specialize (IH k Hk). specialize (Hrank y i k Hin Hi Hm). lia. }
  intros r i Hin Hi Hu. specialize (Hlt i r i Hu Hi). lia.
Qed.

Lemma acyclic_chain : acyclic [w1; w2; w3].
Proof.
  apply (ranked_acyclic _ chain_rank). intros r i k Hr.
  repeat (apply elem_of_cons in Hr as [-> | Hr]);
    [| | | by apply elem_of_nil in Hr]; vm_compute; intros; simplify_eq; lia.
Qed.

Lemma acyclic_repeated : acyclic ws_repeated.
Proof.
  apply (ranked_acyclic _ chain_rank). intros r i k Hr.
  repeat (apply elem_of_cons in Hr as [-> | Hr]);
    [| | | | by apply elem_of_nil in Hr]; vm_compute; intros; simplify_eq; lia.
Qed.

Lemma unique_ids_chain : unique_ids [w1; w2; w3].
Proof.
  split.
  - repeat constructor; rewrite ?elem_of_cons, ?elem_of_nil; intros H;
      repeat destruct H as [H | H]; try discriminate H; done.
  - intros r r' i Hr Hr'.
    repeat (apply elem_of_cons in Hr as [-> | Hr]);
      [| | | by apply elem_of_nil in Hr];
      (repeat (apply elem_of_cons in Hr' as [-> | Hr']);
        [| | | by apply elem_of_nil in Hr']);
      vm_compute; intros; simplify_eq; done.
Qed.

(** *** A reporting line of any depth *)

Lemma id_of_length k : String.length (id_of k) = S k.
Proof. induction k as [|k IH]; simpl; congruence. Qed.

Lemma id_of_inj j k : id_of j = id_of k -> j = k.
Proof.
  intros H. apply (f_equal String.length) in H.
  rewrite !id_of_length in H. lia.
Qed.

Lemma node_key k : worker_key (node k) = Some (id_of k).
Proof.
  unfold worker_key, worker_id, node, mk_worker, Py.or_. simpl.
  destruct k; reflexivity.
Qed.

Lemma node_manager k : manager_key (node (S k)) = Some (id_of k).
Proof.
  unfold manager_key, node, mk_worker, Py.or_. simpl.
  destruct k; reflexivity.
Qed.

Lemma node_top : manager_key (node 0) = None.
Proof. reflexivity. Qed.

Lemma elem_of_deep_chain n w : w ∈ deep_chain n <-> exists k, k <= n /\ w = node k.
Proof.
  unfold deep_chain. rewrite list_elem_of_fmap. split.
  - intros (k & -> & Hk). apply elem_of_seq in Hk. exists k. split; [lia | done].
  - intros (k & Hk & ->). exists k. split; [done|]. apply elem_of_seq. lia.
Qed.

Lemma deep_chain_manager n k :
  S k <= n -> manager_in (deep_chain n) (node (S k)) = Some (id_of k).
Proof.
  intros Hk. apply manager_in_spec. split; [apply node_manager|]. split.
  - rewrite node_key. intros H. assert (Hid : id_of (S k) = id_of k) by congruence.
    apply id_of_inj in Hid. lia.
  - exists (node k). split; [|apply node_key].
    apply elem_of_deep_chain. exists k. split; [lia | done].
Qed.

Lemma deep_chain_acyclic n : acyclic (deep_chain n).
Proof.
  apply (ranked_acyclic _ (fun i => S n - String.length i)).
  intros r i k Hr Hi Hm. apply elem_of_deep_chain in Hr as (j & Hj & ->).
  rewrite node_key in Hi. injection Hi as <-.
  destruct j as [|j]; [by rewrite node_top in Hm|].
  rewrite node_manager in Hm. injection Hm as <-.
  rewrite !id_of_length. lia.
Qed.

(** The workers [k + 1], ..., [k + d] form a chain below worker [k]. *)
Lemma deep_chain_chain n d k :
  k + d <= n ->
  chain (deep_chain n) (id_of k) (map node (seq (S k) d)).
Proof.
  revert k. induction d as [|d IH]; intros k Hk; simpl; [constructor|].
  apply chain_cons with (id_of (S k)).
  - apply elem_of_deep_chain. exists (S k). split; [lia | done].
  - apply deep_chain_manager. lia.
  - apply node_key.
  - apply IH. lia.
Qed.

(** On the line of [limit + 1] workers, the call for the top worker goes
    [limit] calls deep and raises. *)
Lemma deep_chain_raises limit :
  get_all_reports_under_manager limit (deep_chain limit) "0"
  = inl Py.RecursionError.
Proof.
  rewrite get_all_reports_eq.
  apply (collect_reports_deep _ _ _ (map node (seq 1 limit))).
  - apply (deep_chain_chain limit limit 0). lia.
  - by rewrite length_map, length_seq.
Qed.

(** C1 (as amended).  On a worker list whose manager references have no
    cycle, and for a manager below whom no reporting line is as deep as the
    number [limit] of nested calls the interpreter allows (which holds when
    the list has fewer than [limit] workers), the call
    [get_all_reports_under_manager] returns a list [l]; [l] holds exactly
    the direct and indirect reports of the manager; [l] is the depth-first
    pre-order listing: the direct reports in the order of the direct-report
    list, each followed by the listing of its own subtree; every worker of
    [l] is followed by each of its own direct reports; the direct reports
    of the manager appear in [l] in the order of the direct-report list;
    and when no record and no identifier is repeated in the worker list,
    no worker occurs twice in [l]. *)
Theorem collect_reports_preorder (limit : nat) (ws : list worker) (m : string) :
  acyclic ws -> shallow limit ws m ->
  exists l,
    get_all_reports_under_manager limit ws m = inr l
    /\ (forall x, x ∈ l <-> under ws m x)
    /\ l = flat_map
             (fun r => r :: match worker_key r with
                            | Some i =>
                                returned (get_all_reports_under_manager limit ws i)
                            | None => []
                            end)
             (children ws m)
    /\ before_own_reports ws l
    /\ filter (fun x => manager_in ws x = Some m) l = children ws m
    /\ (unique_ids ws -> NoDup l).
Proof.
  intros Hac Hsh.
  destruct (shallow_returns limit ws m Hsh) as [l Hl].
  pose proof Hl as Hl'. rewrite get_all_reports_eq in Hl'.
  pose proof (collect_reports_sound ws _ _ _ Hl') as Hc.
  exists l. split; [done|]. split; [|split; [|split; [|split]]].
  - intros x. by apply collects_members.
  - destruct limit as [|n]; [done|].
    apply collect_reports_S, collect_reports_unfold in Hl'.
    rewrite Hl' at 1. apply flat_map_ext. intros r.
    destruct (worker_key r); [|done]. by rewrite get_all_reports_eq.
  - exact (proj1 (collects_preorder_both ws) m l Hc).
  - exact (proj1 (collects_direct_order_both ws Hac) m l Hc).
  - intros Huniq. exact (proj1 (collects_NoDup_both ws Hac Huniq) m l Hc).
Qed.

(** The scenario of C1: the chain 1 <- 2 <- 3 gives [w2; w3] under 1. *)
Lemma collect_reports_preorder_witness :
  acyclic [w1; w2; w3] /\ shallow 4 [w1; w2; w3] "1" /\
  exists l, get_all_reports_under_manager 4 [w1; w2; w3] "1" = inr l
            /\ l = [w2; w3] /\ NoDup l.
Proof.
  assert (Hsh : shallow 4 [w1; w2; w3] "1").
  { apply acyclic_shallow; [exact acyclic_chain | simpl; lia]. }
  split; [exact acyclic_chain|]. split; [exact Hsh|].
  destruct (collect_reports_preorder 4 [w1; w2; w3] "1" acyclic_chain Hsh)
    as (l & Hl & _ & _ & _ & _ & Hnd).
  exists l. split; [exact Hl|]. split; [|exact (Hnd unique_ids_chain)].
  rewrite scenario_chain in Hl. congruence.
Defined.

(** C1 as stated fails twice.  With the record of worker 2 listed twice,
    the list is still acyclic, and workers 2 and 3 each occur twice in the
    result.  And whatever depth of nested calls the interpreter allows,
    there is an acyclic list, a single reporting line, on which the call
    raises [RecursionError] instead of returning. *)
Lemma collect_reports_repeats :
  (acyclic ws_repeated
   /\ get_all_reports_under_manager 5 ws_repeated "1" = inr [w2; w3; w2; w3]
   /\ ~ NoDup [w2; w3; w2; w3])
  /\ (forall limit,
        acyclic (deep_chain limit)
        /\ get_all_reports_under_manager limit (deep_chain limit) "0"
           = inl Py.RecursionError)
  /\ ~ (forall limit ws m, acyclic ws ->
          exists l, get_all_reports_under_manager limit ws m = inr l).
Proof.
  split; [|split].
  - split; [exact acyclic_repeated|]. split; [vm_compute; reflexivity|].
    intros Hnd. apply NoDup_cons in Hnd as [Hnotin _]. apply Hnotin.
    right. left.
  - intros limit. split; [apply deep_chain_acyclic | apply deep_chain_raises].
  - intros Hall.
    destruct (Hall 1000 (deep_chain 1000) "0"%string (deep_chain_acyclic 1000))
      as [l Hl].
    rewrite deep_chain_raises in Hl. discriminate.
Qed.
(** ** Account emails *)

Section AccountEmails.

Context `{Interp : Py.Interpreter}.

Lemma talentlms_emails_acc (users : list lms_user) (acc : gset string) (x : string) :
  x ∈ foldl (fun emails user =>
               match Py.truthy (user_email user) with
               | Some email => {[ normalize email ]} ∪ emails
               | None => emails
               end) acc users
  <-> x ∈ acc \/
      exists u stored, u ∈ users /\ Py.truthy (user_email u) = Some stored /\
                       normalize stored = x.
Proof.
  revert acc. induction users as [|u users IH]; intros acc; simpl.
  - split; [auto|]. intros [? | (u & ? & Hu & _)]; [done|]. by apply elem_of_nil in Hu.
  - rewrite IH. split.
    + intros [Hx | (u' & stored & Hu' & Hs & Hn)].
      * destruct (Py.truthy (user_email u)) as [email|] eqn:He; [|by left].
        apply elem_of_union in Hx as [Hx | Hx]; [|by left].
        apply elem_of_singleton in Hx. right. exists u, email.
        split; [by left | done].
      * right. exists u', stored. split; [by right | done].
    + intros [Hx | (u' & stored & Hu' & Hs & Hn)].
      * left. destruct (Py.truthy (user_email u)); [|done].
        apply elem_of_union. by right.
      * apply elem_of_cons in Hu' as [-> | Hu'].
        -- left. rewrite Hs. apply elem_of_union. left. by apply elem_of_singleton.
        -- right. by exists u', stored.
Qed.

(** Membership in the set built by [get_all_talentlms_emails]. *)
Lemma talentlms_emails_spec (users : list lms_user) (x : string) :
  x ∈ talentlms_emails users
  <-> exists u stored, u ∈ users /\ Py.truthy (user_email u) = Some stored /\
                       normalize stored = x.
Proof.
  unfold talentlms_emails. rewrite talentlms_emails_acc. split.
  - intros [Hx | Hx]; [by apply elem_of_empty in Hx | done].
  - auto.
Qed.

End AccountEmails.

(** ** The reconciler, one worker at a time *)

Ltac run_body :=
  unfold sync_worker, create_account, enroll, try_except, bind, call, emit,
    incr_created, incr_skipped, incr_error, existing_emails, to_int, ret.

Section ReconcilerFacts.

Context `{Interp : Py.Interpreter} `{Imp : Imports} `{Cl : TalentLMSClient C}.

Implicit Types (w : worker) (s : store C).

Lemma store_eta s c evs :
  c = client s -> evs = [] -> after s c evs 0 0 0 = s.
Proof.
  intros -> ->. unfold after. destruct s; simpl.
  by rewrite app_nil_r, !Nat.add_0_r.
Qed.

Lemma sync_worker_no_email w s :
  Py.truthy (get_work_email w) = None ->
  sync_worker w s
  = (inr tt, after s (client s) [PrintNoWorkEmail (worker_full_name w)] 0 1 0).
Proof.
  intros He. run_body. rewrite He. simpl. unfold after.
  by rewrite !Nat.add_0_r.
Qed.

Lemma sync_worker_existing w s email :
  Py.truthy (get_work_email w) = Some email ->
  normalize email ∈ existing_emails_obj s ->
  sync_worker w s
  = (inr tt, after s (client s)
                   [PrintAlreadyHasAccount (worker_full_name w) email] 0 1 0).
Proof.
  intros He Hin. run_body. rewrite He. simpl.
  rewrite decide_True by done. simpl. unfold after. by rewrite !Nat.add_0_r.
Qed.

Lemma sync_worker_create_raises w s email e c1 :
  Py.truthy (get_work_email w) = Some email ->
  normalize email ∉ existing_emails_obj s ->
  create_user (first_name_of w) (last_name_of w) email email "Testpassword1"
              (client s) = (inl e, c1) ->
  sync_worker w s
  = (inr tt, after s c1 (creation_prefix w email ++ [PrintErrorCreating e]) 0 0 1).
Proof.
  intros He Hin Hcreate. unfold first_name_of, last_name_of in *. run_body.
  rewrite He. simpl. rewrite decide_False by done.
  unfold creation_prefix, first_name_of, last_name_of.
  destruct (name_or_placeholder (worker_first_last w)) as [fn ln]. simpl in *.
  rewrite Hcreate. simpl. unfold after. simpl.
  by rewrite <- !app_assoc, !Nat.add_0_r.
Qed.

Lemma sync_worker_created_no_id w s email created c1 :
  Py.truthy (get_work_email w) = Some email ->
  normalize email ∉ existing_emails_obj s ->
  create_user (first_name_of w) (last_name_of w) email email "Testpassword1"
              (client s) = (inr created, c1) ->
  Py.value_truthy (account_id created) = false ->
  sync_worker w s
  = (inr tt, after s c1 (creation_prefix w email
                           ++ [PrintCreatedUser (account_id created)]) 1 0 0).
Proof.
  intros He Hin Hcreate Hid. unfold first_name_of, last_name_of in *. run_body.
  rewrite He. simpl. rewrite decide_False by done.
  unfold creation_prefix, first_name_of, last_name_of.
  destruct (name_or_placeholder (worker_first_last w)) as [fn ln]. simpl in *.
  rewrite Hcreate. simpl. rewrite Hid. simpl. unfold after. simpl.
  by rewrite <- !app_assoc, !Nat.add_0_r.
Qed.

Lemma sync_worker_created_bad_id w s email created c1 e :
  Py.truthy (get_work_email w) = Some email ->
  normalize email ∉ existing_emails_obj s ->
  create_user (first_name_of w) (last_name_of w) email email "Testpassword1"
              (client s) = (inr created, c1) ->
  Py.value_truthy (account_id created) = true ->
  Py.int (account_id created) = inl e ->
  sync_worker w s
  = (inr tt, after s c1 (creation_prefix w email
                           ++ [PrintCreatedUser (account_id created);
                               PrintEnrollmentFailed e]) 1 0 0).
Proof.
  intros He Hin Hcreate Hid Hint. unfold first_name_of, last_name_of in *. run_body.
  rewrite He. simpl. rewrite decide_False by done.
  unfold creation_prefix, first_name_of, last_name_of.
  destruct (name_or_placeholder (worker_first_last w)) as [fn ln]. simpl in *.
  rewrite Hcreate. simpl. rewrite Hid. simpl. rewrite Hint. simpl.
  unfold after. simpl. by rewrite <- !app_assoc, !Nat.add_0_r.
Qed.

Lemma sync_worker_enroll_raises w s email created c1 uid e c2 :
  Py.truthy (get_work_email w) = Some email ->
  normalize email ∉ existing_emails_obj s ->
  create_user (first_name_of w) (last_name_of w) email email "Testpassword1"
              (client s) = (inr created, c1) ->
  Py.value_truthy (account_id created) = true ->
  Py.int (account_id created) = inr uid ->
  add_user_to_course uid COURSE_ID_ONBOARDING c1 = (inl e, c2) ->
  sync_worker w s
  = (inr tt, after s c2 (creation_prefix w email
                           ++ [PrintCreatedUser (account_id created);
                               CallAddUserToCourse uid COURSE_ID_ONBOARDING;
                               PrintEnrollmentFailed e]) 1 0 0).
Proof.
  intros He Hin Hcreate Hid Hint Henroll.
  unfold first_name_of, last_name_of in *. run_body.
  rewrite He. simpl. rewrite decide_False by done.
  unfold creation_prefix, first_name_of, last_name_of.
  destruct (name_or_placeholder (worker_first_last w)) as [fn ln]. simpl in *.
  rewrite Hcreate. simpl. rewrite Hid. simpl. rewrite Hint. simpl.
  rewrite Henroll. simpl.
  unfold after. simpl. by rewrite <- !app_assoc, !Nat.add_0_r.
Qed.

Lemma sync_worker_enrolled w s email created c1 uid c2 :
  Py.truthy (get_work_email w) = Some email ->
  normalize email ∉ existing_emails_obj s ->
  create_user (first_name_of w) (last_name_of w) email email "Testpassword1"
              (client s) = (inr created, c1) ->
  Py.value_truthy (account_id created) = true ->
  Py.int (account_id created) = inr uid ->
  add_user_to_course uid COURSE_ID_ONBOARDING c1 = (inr tt, c2) ->
  sync_worker w s
  = (inr tt, after s c2 (creation_prefix w email
                           ++ [PrintCreatedUser (account_id created);
                               CallAddUserToCourse uid COURSE_ID_ONBOARDING;
                               PrintEnrolled COURSE_ID_ONBOARDING]) 1 0 0).
Proof.
  intros He Hin Hcreate Hid Hint Henroll.
  unfold first_name_of, last_name_of in *. run_body.
  rewrite He. simpl. rewrite decide_False by done.
  unfold creation_prefix, first_name_of, last_name_of.
  destruct (name_or_placeholder (worker_first_last w)) as [fn ln]. simpl in *.
  rewrite Hcreate. simpl. rewrite Hid. simpl. rewrite Hint. simpl.
  rewrite Henroll. simpl.
  unfold after. simpl. by rewrite <- !app_assoc, !Nat.add_0_r.
Qed.

End ReconcilerFacts.

(** ** The reconciler, over the whole list *)

Section ReconcilerLoop.

Context `{Interp : Py.Interpreter} `{Imp : Imports} `{Cl : TalentLMSClient C}.

Implicit Types (w : worker) (s : store C).

Lemma creation_call_of_eq w email :
  Py.truthy (get_work_email w) = Some email ->
  creation_call_of w
  = CallCreateUser (first_name_of w) (last_name_of w) email email "Testpassword1".
Proof.
  intros He. unfold creation_call_of, first_name_of, last_name_of. rewrite He.
  by destruct (name_or_placeholder (worker_first_last w)).
Qed.

Lemma creation_calls_app evs evs' :
  creation_calls (evs ++ evs') = creation_calls evs ++ creation_calls evs'.
Proof. apply filter_app. Qed.

Lemma after_after s c evs dc ds de c' evs' dc' ds' de' :
  after (after s c evs dc ds de) c' evs' dc' ds' de'
  = after s c' (evs ++ evs') (dc + dc') (ds + ds') (de + de').
Proof. unfold after. simpl. by rewrite <- app_assoc, !Nat.add_assoc. Qed.

(** Every iteration returns, leaves the two argument objects alone, adds one
    to exactly one counter, and calls [create_user] exactly when the worker
    has a work email that no existing account carries. *)
Lemma sync_worker_step w s :
  exists c evs dc ds de,
    sync_worker w s = (inr tt, after s c evs dc ds de)
    /\ dc + ds + de = 1
    /\ creation_calls evs
       = (if decide (lacks_account (existing_emails_obj s) w)
          then [creation_call_of w] else []).
Proof.
  destruct (Py.truthy (get_work_email w)) as [email|] eqn:He.
  2:{ eexists _, _, 0, 1, 0. rewrite (sync_worker_no_email w s He).
      split; [done|]. split; [done|].
      by rewrite decide_False by (unfold lacks_account; rewrite He; tauto). }
  destruct (decide (normalize email ∈ existing_emails_obj s)) as [Hin|Hin].
  { eexists _, _, 0, 1, 0. rewrite (sync_worker_existing w s email He Hin).
    split; [done|]. split; [done|].
    by rewrite decide_False by (unfold lacks_account; rewrite He; tauto). }
  rewrite decide_True by (unfold lacks_account; by rewrite He).
  rewrite (creation_call_of_eq w email He).
  destruct (create_user (first_name_of w) (last_name_of w) email email
              "Testpassword1" (client s)) as [[e|created] c1] eqn:Hcreate.
  { eexists _, _, 0, 0, 1.
    rewrite (sync_worker_create_raises w s email e c1 He Hin Hcreate).
    split; [done|]. split; done. }
  destruct (Py.value_truthy (account_id created)) eqn:Hid.
  2:{ eexists _, _, 1, 0, 0.
      rewrite (sync_worker_created_no_id w s email created c1 He Hin Hcreate Hid).
      split; [done|]. split; done. }
  destruct (Py.int (account_id created)) as [e|uid] eqn:Hint.
  { eexists _, _, 1, 0, 0.
    rewrite (sync_worker_created_bad_id w s email created c1 e He Hin Hcreate Hid Hint).
    split; [done|]. split; done. }
  destruct (add_user_to_course uid COURSE_ID_ONBOARDING c1) as [[e|[]] c2] eqn:Henroll.
  - eexists _, _, 1, 0, 0.
    rewrite (sync_worker_enroll_raises w s email created c1 uid e c2
               He Hin Hcreate Hid Hint Henroll).
    split; [done|]. split; done.
  - eexists _, _, 1, 0, 0.
    rewrite (sync_worker_enrolled w s email created c1 uid c2
               He Hin Hcreate Hid Hint Henroll).
    split; [done|]. split; done.
Qed.

Lemma for_workers_cons w rest s s' :
  sync_worker w s = (inr tt, s') ->
  for_workers (w :: rest) s = for_workers rest s'.
Proof. intros Hw. simpl. unfold bind. by rewrite Hw. Qed.

(** The loop returns; its counters add up to the number of workers; the
    creation calls are those of the workers lacking an account, in order. *)
Lemma for_workers_spec (ws : list worker) s :
  exists c evs dc ds de,
    for_workers ws s = (inr tt, after s c evs dc ds de)
    /\ dc + ds + de = length ws
    /\ creation_calls evs
       = creation_call_of <$> filter (lacks_account (existing_emails_obj s)) ws.
Proof.
  revert s. induction ws as [|w ws IH]; intros s.
  - exists (client s), [], 0, 0, 0. simpl. unfold ret.
    by rewrite store_eta.
  - destruct (sync_worker_step w s) as (c & evs & dc & ds & de & Hw & Hsum & Hcalls).
    destruct (IH (after s c evs dc ds de))
      as (c' & evs' & dc' & ds' & de' & Hws & Hsum' & Hcalls').
    exists c', (evs ++ evs'), (dc + dc'), (ds + ds'), (de + de').
    rewrite (for_workers_cons _ _ _ _ Hw), Hws, after_after.
    split; [done|]. split; [simpl; lia|].
    rewrite creation_calls_app, Hcalls, Hcalls'. simpl.
    rewrite filter_cons. by destruct (decide (lacks_account _ w)).
Qed.

End ReconcilerLoop.

(** ** Properties of the reconciler *)

Section ReconcilerProperties.

Context `{Interp : Py.Interpreter} `{Imp : Imports} `{Cl : TalentLMSClient C}.

Implicit Types (w : worker) (s : store C).

(** C4.  A worker without a work email is skipped: the iteration returns,
    [skipped_count] grows by one, the other two counters and the client are
    untouched, the only output is the "no work email" line (so no creation
    call is made), and the loop goes on with the next worker. *)
Theorem skip_without_work_email w (rest : list worker) s :
  Py.truthy (get_work_email w) = None ->
  (sync_worker w s).1 = inr tt
  /\ skipped_count (sync_worker w s).2 = skipped_count s + 1
  /\ created_count (sync_worker w s).2 = created_count s
  /\ error_count (sync_worker w s).2 = error_count s
  /\ client (sync_worker w s).2 = client s
  /\ out (sync_worker w s).2 = out s ++ [PrintNoWorkEmail (worker_full_name w)]
  /\ for_workers (w :: rest) s = for_workers rest (sync_worker w s).2.
Proof.
  intros He. rewrite (for_workers_cons w rest s _ (sync_worker_no_email w s He)).
  rewrite (sync_worker_no_email w s He). simpl.
  repeat split; lia.
Qed.

(** C5.  When the creation call raises, the iteration still returns:
    [error_count] grows by one, the other two counters are untouched, the
    error line is printed, the loop goes on with the next worker; and the
    loop as a whole never lets an exception escape. *)
Theorem creation_error_counted w (rest : list worker) s email e c1 :
  Py.truthy (get_work_email w) = Some email ->
  normalize email ∉ existing_emails_obj s ->
  create_user (first_name_of w) (last_name_of w) email email "Testpassword1"
              (client s) = (inl e, c1) ->
  (sync_worker w s).1 = inr tt
  /\ error_count (sync_worker w s).2 = error_count s + 1
  /\ created_count (sync_worker w s).2 = created_count s
  /\ skipped_count (sync_worker w s).2 = skipped_count s
  /\ out (sync_worker w s).2
     = out s ++ creation_prefix w email ++ [PrintErrorCreating e]
  /\ for_workers (w :: rest) s = for_workers rest (sync_worker w s).2
  /\ (forall (ws : list worker) s0, (for_workers ws s0).1 = inr tt).
Proof.
  intros He Hin Hcreate.
  pose proof (sync_worker_create_raises w s email e c1 He Hin Hcreate) as Hw.
  rewrite (for_workers_cons w rest s _ Hw). rewrite Hw. simpl.
  repeat split; try lia.
  intros ws s0.
  destruct (for_workers_spec ws s0) as (c & evs & dc & ds & de & -> & _). done.
Qed.

(** C6.  When creation succeeds and the enrollment fails, either because
    the enrollment call raises or because [int] rejects the account id
    before the call, the worker is counted as created: [created_count]
    grows by one, [error_count] and [skipped_count] are untouched, the
    failure is only printed, nothing is called on the client after the
    failed enrollment, and the loop goes on with the next worker. *)
Theorem enrollment_failure_keeps_account w (rest : list worker) s
    email created c1 e c2 (calls : list event) :
  Py.truthy (get_work_email w) = Some email ->
  normalize email ∉ existing_emails_obj s ->
  create_user (first_name_of w) (last_name_of w) email email "Testpassword1"
              (client s) = (inr created, c1) ->
  Py.value_truthy (account_id created) = true ->
  (Py.int (account_id created) = inl e /\ c2 = c1 /\ calls = [])
  \/ (exists uid,
        Py.int (account_id created) = inr uid
        /\ add_user_to_course uid COURSE_ID_ONBOARDING c1 = (inl e, c2)
        /\ calls = [CallAddUserToCourse uid COURSE_ID_ONBOARDING]) ->
  (sync_worker w s).1 = inr tt
  /\ created_count (sync_worker w s).2 = created_count s + 1
  /\ error_count (sync_worker w s).2 = error_count s
  /\ skipped_count (sync_worker w s).2 = skipped_count s
  /\ client (sync_worker w s).2 = c2
  /\ out (sync_worker w s).2
     = out s ++ creation_prefix w email
         ++ [PrintCreatedUser (account_id created)] ++ calls
         ++ [PrintEnrollmentFailed e]
  /\ for_workers (w :: rest) s = for_workers rest (sync_worker w s).2.
Proof.
  intros He Hin Hcreate Hid [(Hint & -> & ->) | (uid & Hint & Henroll & ->)].
  - pose proof (sync_worker_created_bad_id w s email created c1 e
                  He Hin Hcreate Hid Hint) as Hw.
    rewrite (for_workers_cons w rest s _ Hw). rewrite Hw. simpl.
    repeat split; lia.
  - pose proof (sync_worker_enroll_raises w s email created c1 uid e c2
                  He Hin Hcreate Hid Hint Henroll) as Hw.
    rewrite (for_workers_cons w rest s _ Hw). rewrite Hw. simpl.
    repeat split; lia.
Qed.

(** C8.  [sync_workers_to_talentlms] returns, and at its end the three
    counters add up to the number of workers; the summary reports them; and
    every iteration adds one to exactly one counter. *)
Theorem counters_partition (ws : list worker) (existing : gset string) (c0 : C) :
  (sync_workers_to_talentlms ws existing c0).1 = inr tt
  /\ created_count (sync_workers_to_talentlms ws existing c0).2
     + skipped_count (sync_workers_to_talentlms ws existing c0).2
     + error_count (sync_workers_to_talentlms ws existing c0).2 = length ws
  /\ last (out (sync_workers_to_talentlms ws existing c0).2)
     = Some (PrintSummary (length ws)
               (created_count (sync_workers_to_talentlms ws existing c0).2)
               (skipped_count (sync_workers_to_talentlms ws existing c0).2)
               (error_count (sync_workers_to_talentlms ws existing c0).2))
  /\ (forall w s,
        (sync_worker w s).1 = inr tt /\
        exists dc ds de,
          created_count (sync_worker w s).2 = created_count s + dc
          /\ skipped_count (sync_worker w s).2 = skipped_count s + ds
          /\ error_count (sync_worker w s).2 = error_count s + de
          /\ ((dc = 1 /\ ds = 0 /\ de = 0) \/ (dc = 0 /\ ds = 1 /\ de = 0)
              \/ (dc = 0 /\ ds = 0 /\ de = 1))).
Proof.
  unfold sync_workers_to_talentlms, bind.
  destruct (for_workers_spec ws (Store c0 [] ws existing 0 0 0))
    as (c & evs & dc & ds & de & -> & Hsum & _).
  unfold summary, emit. simpl. rewrite last_snoc.
  split; [done|]. split; [lia|]. split; [done|].
  intros w s.
  destruct (sync_worker_step w s) as (c' & evs' & dc' & ds' & de' & -> & Hone & _).
  split; [done|]. exists dc', ds', de'. simpl. repeat split; lia.
Qed.

(** C9.  At the end of [sync_workers_to_talentlms] the set of existing
    emails and the worker list are the ones it was given (no iteration
    changes them); the creation calls are those of the workers that have a
    work email absent from the given set, one per such worker, in order; so
    two workers with the same normalized work email, absent from the set,
    both get a creation call. *)
Theorem no_mutation_duplicate_creation (ws : list worker)
    (existing : gset string) (c0 : C) :
  existing_emails_obj (sync_workers_to_talentlms ws existing c0).2 = existing
  /\ workers_obj (sync_workers_to_talentlms ws existing c0).2 = ws
  /\ (forall w s, existing_emails_obj (sync_worker w s).2 = existing_emails_obj s
                  /\ workers_obj (sync_worker w s).2 = workers_obj s)
  /\ creation_calls (out (sync_workers_to_talentlms ws existing c0).2)
     = creation_call_of <$> filter (lacks_account existing) ws
  /\ (forall l1 wa l2 wb l3 ea eb,
        ws = l1 ++ wa :: l2 ++ wb :: l3 ->
        Py.truthy (get_work_email wa) = Some ea ->
        Py.truthy (get_work_email wb) = Some eb ->
        normalize ea = normalize eb ->
        normalize ea ∉ existing ->
        exists k1 k2 k3,
          creation_calls (out (sync_workers_to_talentlms ws existing c0).2)
          = k1 ++ creation_call_of wa :: k2 ++ creation_call_of wb :: k3).
Proof.
  assert (Hcalls :
    creation_calls (out (sync_workers_to_talentlms ws existing c0).2)
    = creation_call_of <$> filter (lacks_account existing) ws).
  { unfold sync_workers_to_talentlms, bind.
    destruct (for_workers_spec ws (Store c0 [] ws existing 0 0 0))
      as (c & evs & dc & ds & de & -> & _ & Hcalls).
    unfold summary, emit. simpl. rewrite creation_calls_app, Hcalls. simpl.
    by rewrite app_nil_r. }
  split; [|split; [|split; [|split; [exact Hcalls|]]]].
  - unfold sync_workers_to_talentlms, bind.
    destruct (for_workers_spec ws (Store c0 [] ws existing 0 0 0))
      as (c & evs & dc & ds & de & -> & _). done.
  - unfold sync_workers_to_talentlms, bind.
    destruct (for_workers_spec ws (Store c0 [] ws existing 0 0 0))
      as (c & evs & dc & ds & de & -> & _). done.
  - intros w s.
    destruct (sync_worker_step w s) as (c' & evs' & dc' & ds' & de' & -> & _). done.
  - intros l1 wa l2 wb l3 ea eb -> Ha Hb Hab Hnew. rewrite Hcalls.
    assert (La : lacks_account existing wa) by (unfold lacks_account; by rewrite Ha).
    assert (Lb : lacks_account existing wb)
      by (unfold lacks_account; rewrite Hb; congruence).
    rewrite filter_app, filter_cons_True, filter_app, filter_cons_True by done.
    rewrite fmap_app, fmap_cons, fmap_app, fmap_cons.
    by eexists _, _, _.
Qed.

End ReconcilerProperties.

(** ** When the enrollment call is made *)

Section EnrollmentProperties.

Context `{Interp : Py.Interpreter} `{Imp : Imports} `{Cl : TalentLMSClient C}.

Implicit Types (w : worker) (s : store C).

Lemma not_enrollment_in_prefix w email uid course (tl : list event) :
  CallAddUserToCourse uid course ∈ (creation_prefix w email ++ tl) ->
  CallAddUserToCourse uid course ∈ tl.
Proof.
  unfold creation_prefix. simpl. rewrite !elem_of_cons.
  intros [Heq | [Heq | Hin]]; [discriminate Heq | discriminate Heq | done].
Qed.

Lemma enrollment_trace_iff w email (id : Py.value) uid course0
    (last_ev : event) uid' course :
  is_enrollment_call last_ev = false ->
  CallAddUserToCourse uid' course
    ∈ (creation_prefix w email
         ++ [PrintCreatedUser id; CallAddUserToCourse uid course0; last_ev])
  <-> uid' = uid /\ course = course0.
Proof.
  intros Hlast. split.
  - intros Hev. apply not_enrollment_in_prefix in Hev.
    apply elem_of_cons in Hev as [Hev | Hev]; [discriminate Hev|].
    apply elem_of_cons in Hev as [Hev | Hev]; [by injection Hev|].
    apply elem_of_cons in Hev as [Hev | Hev]; [by subst last_ev|].
    by apply elem_of_nil in Hev.
  - intros [-> ->]. apply elem_of_app. right. right. left.
Qed.

Ltac no_enrollment H :=
  repeat (apply elem_of_cons in H as [H | H]; [discriminate H|]);
  by apply elem_of_nil in H.

(** C10 (as amended).  In an iteration the enrollment call is made exactly
    when the creation call returned an account whose id is truthy and is
    accepted by [int]; the call is for the onboarding course.  Whenever the
    creation call returned, [created_count] grows by one: when the id is
    missing or falsy nothing more is printed or called, and when the id is
    truthy but [int] rejects it, the only trace is the "enrollment failed"
    line. *)
Theorem enrollment_call_condition w s :
  (sync_worker w s).1 = inr tt
  /\ exists evs,
       out (sync_worker w s).2 = out s ++ evs
       /\ (forall uid course,
             CallAddUserToCourse uid course ∈ evs
             <-> course = COURSE_ID_ONBOARDING
                 /\ exists created,
                      creation_returned w s created
                      /\ Py.value_truthy (account_id created) = true
                      /\ Py.int (account_id created) = inr uid)
       /\ (forall created,
             creation_returned w s created ->
             created_count (sync_worker w s).2 = created_count s + 1
             /\ (Py.value_truthy (account_id created) = false ->
                 exists email,
                   evs = creation_prefix w email
                           ++ [PrintCreatedUser (account_id created)])
             /\ (forall e,
                   Py.value_truthy (account_id created) = true ->
                   Py.int (account_id created) = inl e ->
                   exists email,
                     evs = creation_prefix w email
                             ++ [PrintCreatedUser (account_id created);
                                 PrintEnrollmentFailed e])).
Proof.
  unfold creation_returned.
  destruct (Py.truthy (get_work_email w)) as [email|] eqn:He.
  2:{ rewrite (sync_worker_no_email w s He). split; [done|].
      eexists. split; [reflexivity|]. split.
      - intros uid course. split.
        + intros Hin. no_enrollment Hin.
        + intros (_ & created & (em & c1 & Hem & _) & _). discriminate Hem.
      - intros created (em & c1 & Hem & _). discriminate Hem. }
  destruct (decide (normalize email ∈ existing_emails_obj s)) as [Hin|Hin].
  { rewrite (sync_worker_existing w s email He Hin). split; [done|].
    eexists. split; [reflexivity|]. split.
    - intros uid course. split.
      + intros Hev. no_enrollment Hev.
      + intros (_ & created & (em & c1 & Hem & Hnew & _) & _). congruence.
    - intros created (em & c1 & Hem & Hnew & _). congruence. }
  destruct (create_user (first_name_of w) (last_name_of w) email email
              "Testpassword1" (client s)) as [[e|created] c1] eqn:Hcreate.
  { rewrite (sync_worker_create_raises w s email e c1 He Hin Hcreate).
    split; [done|]. eexists. split; [reflexivity|]. split.
    - intros uid course. split.
      + intros Hev. apply not_enrollment_in_prefix in Hev. no_enrollment Hev.
      + intros (_ & created & (em & c1' & Hem & _ & Hc) & _).
        simplify_eq. congruence.
    - intros created (em & c1' & Hem & _ & Hc). simplify_eq. congruence. }
  destruct (Py.value_truthy (account_id created)) eqn:Hid.
  2:{ rewrite (sync_worker_created_no_id w s email created c1 He Hin Hcreate Hid).
      split; [done|]. eexists. split; [reflexivity|]. split.
      - intros uid course. split.
        + intros Hev. apply not_enrollment_in_prefix in Hev. no_enrollment Hev.
        + intros (_ & created' & (em & c1' & Hem & _ & Hc) & Hid' & _).
          simplify_eq. congruence.
      - intros created' (em & c1' & Hem & _ & Hc). simplify_eq.
        assert (created' = created) as -> by congruence.
        split; [done|]. split; [by eexists|].
        intros e Hid'. congruence. }
  destruct (Py.int (account_id created)) as [e|uid] eqn:Hint.
  { rewrite (sync_worker_created_bad_id w s email created c1 e He Hin Hcreate Hid Hint).
    split; [done|]. eexists. split; [reflexivity|]. split.
    - intros uid course. split.
      + intros Hev. apply not_enrollment_in_prefix in Hev. no_enrollment Hev.
      + intros (_ & created' & (em & c1' & Hem & _ & Hc) & _ & Hint').
        simplify_eq. congruence.
    - intros created' (em & c1' & Hem & _ & Hc). simplify_eq.
      assert (created' = created) as -> by congruence.
      split; [done|]. split; [congruence|].
      intros e' _ He'. assert (e' = e) as -> by congruence. by eexists. }
  destruct (add_user_to_course uid COURSE_ID_ONBOARDING c1)
    as [[e|[]] c2] eqn:Henroll.
  - rewrite (sync_worker_enroll_raises w s email created c1 uid e c2
               He Hin Hcreate Hid Hint Henroll).
    split; [done|]. eexists. split; [reflexivity|]. split.
    + intros uid' course. rewrite enrollment_trace_iff by done. split.
      * intros [-> ->]. split; [done|]. exists created.
        split; [by exists email, c1 | done].
      * intros (-> & created' & (em & c1' & Hem & _ & Hc) & _ & Hint').
        simplify_eq. split; [congruence | done].
    + intros created' (em & c1' & Hem & _ & Hc). simplify_eq.
      assert (created' = created) as -> by congruence.
      split; [done|]. split; [congruence|]. intros e' _ He'. congruence.
  - rewrite (sync_worker_enrolled w s email created c1 uid c2
               He Hin Hcreate Hid Hint Henroll).
    split; [done|]. eexists. split; [reflexivity|]. split.
    + intros uid' course. rewrite enrollment_trace_iff by done. split.
      * intros [-> ->]. split; [done|]. exists created.
        split; [by exists email, c1 | done].
      * intros (-> & created' & (em & c1' & Hem & _ & Hc) & _ & Hint').
        simplify_eq. split; [congruence | done].
    + intros created' (em & c1' & Hem & _ & Hc). simplify_eq.
      assert (created' = created) as -> by congruence.
      split; [done|]. split; [congruence|]. intros e' _ He'. congruence.
Qed.

End EnrollmentProperties.

(** ** Runs on the sample data *)

Section SampleRuns.

#[local] Existing Instance Py.ascii_interpreter.

(** C4 on a worker whose only email is tagged "home". *)
Lemma skip_without_work_email_witness :
  Py.truthy (@get_work_email (imports_of [w_nomail]) w_nomail) = None
  /\ skipped_count (sync_worker (Imp := imports_of [w_nomail]) w_nomail
                      (Store client_refusing [] [w_nomail] ∅ 0 0 0)).2 = 1
  /\ out (sync_worker (Imp := imports_of [w_nomail]) w_nomail
            (Store client_refusing [] [w_nomail] ∅ 0 0 0)).2
     = [PrintNoWorkEmail "Dee"].
Proof.
  split; [reflexivity|].
  destruct (skip_without_work_email (Imp := imports_of [w_nomail]) w_nomail []
              (Store client_refusing [] [w_nomail] ∅ 0 0 0) eq_refl)
    as (_ & Hskipped & _ & _ & _ & Hout & _).
  split; [exact Hskipped | exact Hout].
Defined.

(** C5 on a client whose creation call raises. *)
Lemma creation_error_counted_witness :
  error_count (sync_worker (Imp := imports_of [w_joe]) w_joe
                 (Store client_refusing [] [w_joe] ∅ 0 0 0)).2 = 1
  /\ created_count (sync_worker (Imp := imports_of [w_joe]) w_joe
                      (Store client_refusing [] [w_joe] ∅ 0 0 0)).2 = 0.
Proof.
  edestruct (creation_error_counted (Imp := imports_of [w_joe]) w_joe []
               (Store client_refusing [] [w_joe] ∅ 0 0 0) "joe@x.com")
    as (_ & Herror & Hcreated & _);
    [reflexivity | apply not_elem_of_empty | reflexivity |].
  split; [exact Herror | exact Hcreated].
Defined.

(** C6 on a client that creates account 42 and refuses the enrollment. *)
Lemma enrollment_failure_keeps_account_witness :
  created_count (sync_worker (Imp := imports_of [w_joe]) w_joe
                   (Store client_course_closed [] [w_joe] ∅ 0 0 0)).2 = 1
  /\ error_count (sync_worker (Imp := imports_of [w_joe]) w_joe
                    (Store client_course_closed [] [w_joe] ∅ 0 0 0)).2 = 0.
Proof.
  edestruct (enrollment_failure_keeps_account (Imp := imports_of [w_joe]) w_joe []
               (Store client_course_closed [] [w_joe] ∅ 0 0 0) "joe@x.com")
    as (_ & Hcreated & Herror & _);
    [reflexivity | apply not_elem_of_empty | reflexivity | reflexivity
    | right; exists 42%Z; repeat split; reflexivity |].
  split; [exact Hcreated | exact Herror].
Defined.

End SampleRuns.

Lemma int_abc `{Interp : Py.Interpreter} :
  Py.int (Py.VStr "abc") = inl Py.ValueError.
Proof.
  unfold Py.int. rewrite Py.int_ascii by first [reflexivity | simpl; lia].
  reflexivity.
Qed.

(** C10 as stated fails: the creation call returns the id ["abc"], which is
    present and truthy, and no enrollment call is made: [int("abc")] raises
    inside the inner [try], before the call. *)
Lemma truthy_id_without_enrollment_call :
  Py.value_truthy (Py.VStr "abc") = true
  /\ forall Interp : Py.Interpreter,
       creation_returned (Imp := imports_of [w_joe]) w_joe
         (Store client_odd_id [] [w_joe] ∅ 0 0 0) {| account_id := Py.VStr "abc" |}
       /\ out (sync_worker (Imp := imports_of [w_joe]) w_joe
                 (Store client_odd_id [] [w_joe] ∅ 0 0 0)).2
          = [PrintCreating "Joe" "joe@x.com";
             CallCreateUser (Some "Joe"%string) (Some EmptyString)
                            "joe@x.com" "joe@x.com" "Testpassword1";
             PrintCreatedUser (Py.VStr "abc");
             PrintEnrollmentFailed Py.ValueError]
       /\ enrollment_calls
            (out (sync_worker (Imp := imports_of [w_joe]) w_joe
                    (Store client_odd_id [] [w_joe] ∅ 0 0 0)).2) = []
       /\ created_count (sync_worker (Imp := imports_of [w_joe]) w_joe
                           (Store client_odd_id [] [w_joe] ∅ 0 0 0)).2 = 1.
Proof.
  split; [reflexivity|]. intros Interp.
  assert (Hrun :
    sync_worker (Imp := imports_of [w_joe]) w_joe
      (Store client_odd_id [] [w_joe] ∅ 0 0 0)
    = (inr tt, after (Store client_odd_id [] [w_joe] ∅ 0 0 0)
                 (Scripted (inr []) [] [])
                 (creation_prefix (Imp := imports_of [w_joe]) w_joe "joe@x.com"
                    ++ [PrintCreatedUser (Py.VStr "abc");
                        PrintEnrollmentFailed Py.ValueError]) 1 0 0)).
  { eapply (sync_worker_created_bad_id (Imp := imports_of [w_joe]) w_joe _
              "joe@x.com" {| account_id := Py.VStr "abc" |});
      [reflexivity | apply not_elem_of_empty | reflexivity | reflexivity
      | apply int_abc]. }
  split.
  { exists "joe@x.com"%string, (Scripted (inr []) [] []).
    split; [reflexivity|]. split; [apply not_elem_of_empty | reflexivity]. }
  rewrite Hrun. repeat split.
Qed.


(** ** Cycles of manager references *)

Section CollectorCycles.

Variable ws : list worker.

(** A reporting line from [m] down to [x], continued by a chain below [x],
    is a longer chain below [m]. *)
Lemma under_chain m x k c :
  under ws m x -> worker_key x = Some k -> chain ws k c ->
  exists c', chain ws m c' /\ length c < length c'.
Proof.
  intros Hu. revert k c.
  induction Hu as [y Hin Hm | x0 k0 y _ IH Hk0 Hin Hm]; intros k c Hk Hc.
  - exists (y :: c). split; [by econstructor | simpl; lia].
  - destruct (IH k0 (y :: c) Hk0) as (c' & Hc' & Hlen); [by econstructor|].
    exists c'. split; [done | simpl in Hlen; lia].
Qed.

Lemma on_cycle_chains i n :
  on_cycle ws i -> exists c, chain ws i c /\ n <= length c.
Proof.
  intros (y & Hu & Hk). induction n as [|n [c [Hc Hlen]]].
  - exists []. split; [constructor | simpl; lia].
  - destruct (under_chain i y i c Hu Hk Hc) as (c' & Hc' & Hlen').
    exists c'. split; [done | lia].
Qed.

(** From an identifier that reaches a cycle there are chains of every
    length. *)
Lemma reaches_cycle_chains m n :
  reaches_cycle ws m -> exists c, length c = n /\ chain ws m c.
Proof.
  intros Hcyc.
  assert (exists c, chain ws m c /\ n <= length c) as (c & Hc & Hlen).
  { destruct Hcyc as [Hcyc | (x & i & Hu & Hk & Hcyc)].
    - by apply on_cycle_chains.
    - destruct (on_cycle_chains i n Hcyc) as (c & Hc & Hlen).
      destruct (under_chain m x i c Hu Hk Hc) as (c' & Hc' & Hlen').
      exists c'. split; [done | lia]. }
  exists (take n c). split; [rewrite length_take; lia | by apply chain_take].
Qed.

Lemma reaches_cycle_raises m limit :
  reaches_cycle ws m ->
  collect_reports limit (build_org_hierarchy ws).1 m = inl Py.RecursionError.
Proof.
  intros Hcyc. destruct (reaches_cycle_chains m limit Hcyc) as (c & Hlen & Hc).
  by eapply collect_reports_deep.
Qed.




End CollectorCycles.

Lemma get_all_reports_members (ws : list worker) (m : string) limit l :
  get_all_reports_under_manager limit ws m = inr l ->
  forall x, x ∈ l <-> under ws m x.
Proof.
  rewrite get_all_reports_eq. intros Hl x.
  apply collects_members. by eapply collect_reports_sound.
Qed.

Lemma get_all_reports_terminates (ws : list worker) (m : string) limit :
  acyclic ws -> length ws < limit ->
  exists l, get_all_reports_under_manager limit ws m = inr l.
Proof. intros Hac Hlen. by apply shallow_returns, acyclic_shallow. Qed.


(** ** The filtering pipeline and the exit status *)

Section PipelineProperties.

Context `{Interp : Py.Interpreter} `{Imp : Imports} `{Cl : TalentLMSClient C}.


(** C2 (as amended).  With the worker list returned by the loader:
    without a manager filter the result is the active workers of the list,
    in order; with a manager filter resolved to a record with identifier
    [manager_id], and the subtree collector returning [reports], the result
    is the list of active workers filtered by membership in [reports], where
    membership is equality of records, field by field; it is a sublist of
    the active workers, so their relative order is kept; [reports] holds
    the direct and indirect reports of [manager_id]; on an acyclic list
    shorter than the depth of nested calls the interpreter allows the
    collector does return; and what the collector raises, the pipeline
    raises. *)
Theorem filter_pipeline_membership (limit : nat) (data : option (list worker))
    (workers : list worker) (manager_identifier : Py.optstr) :
  get_workers = inr data ->
  workers = default [] data ->
  (Py.truthy manager_identifier = None ->
     get_active_adp_workers limit manager_identifier
     = Return (filter (fun w => is_active_worker w = true) workers))
  /\ (forall identifier manager_worker manager_id,
        Py.truthy manager_identifier = Some identifier ->
        find_worker_by_identifier workers identifier = Some manager_worker ->
        worker_key manager_worker = Some manager_id ->
        (forall reports,
           get_all_reports_under_manager limit workers manager_id = inr reports ->
           get_active_adp_workers limit manager_identifier
           = Return (filter (fun w => w ∈ reports)
                       (filter (fun w => is_active_worker w = true) workers))
           /\ filter (fun w => w ∈ reports)
                (filter (fun w => is_active_worker w = true) workers)
              `sublist_of` filter (fun w => is_active_worker w = true) workers
           /\ (forall w,
                 w ∈ filter (fun w => w ∈ reports)
                       (filter (fun w => is_active_worker w = true) workers)
                 <-> is_active_worker w = true /\ w ∈ workers /\ w ∈ reports)
           /\ (forall w, w ∈ reports <-> under workers manager_id w))
        /\ (acyclic workers -> length workers < limit ->
            exists reports,
              get_all_reports_under_manager limit workers manager_id = inr reports)
        /\ (forall e,
              get_all_reports_under_manager limit workers manager_id = inl e ->
              get_active_adp_workers limit manager_identifier = Raise e)).
Proof.
  intros Hdata ->. unfold get_active_adp_workers. rewrite Hdata. split.
  - by intros ->.
  - intros identifier manager_worker manager_id -> Hfind Hkey.
    rewrite Hfind, Hkey. split; [|split].
    + intros reports Hreports. rewrite Hreports.
      split; [done|]. split; [apply sublist_filter|]. split.
      * intros w. rewrite !list_elem_of_filter. tauto.
      * by apply (get_all_reports_members _ _ limit).
    + intros Hac Hlimit. by apply get_all_reports_terminates.
    + by intros e ->.
Qed.






End PipelineProperties.

Section PipelineRuns.

#[local] Existing Instance Py.ascii_interpreter.

(** C2 on the chain of the scenario, filtered by manager 1. *)
Lemma filter_pipeline_membership_witness :
  get_active_adp_workers (Imp := imports_of [w1; w2; w3]) 4 (Some "1"%string)
  = Return [w2; w3].
Proof.
  destruct (filter_pipeline_membership (Imp := imports_of [w1; w2; w3]) 4
              (Some [w1; w2; w3]) [w1; w2; w3] (Some "1"%string) eq_refl eq_refl)
    as [_ Hfiltered].
  destruct (Hfiltered "1"%string w1 "1"%string eq_refl eq_refl eq_refl)
    as [Hreports _].
  destruct (Hreports [w2; w3] scenario_chain) as [Hrun _].
  exact Hrun.
Defined.

(** The scenario filtered by manager 1: the filter resolves, the run
    returns normally. *)
Example main_on_scenario :
  main (Imp := imports_of [w1; w2; w3]) 4 (Some "1"%string) client_idle
  = Return tt.
Proof. by vm_compute. Qed.

End PipelineRuns.

(** C2 as stated fails: two records carry the identifier 2; the inactive
    one is a report of manager 1, the active one is not.  The active record
    is dropped, although a record with its identifier is in the subtree:
    the test is equality of records, not of identifiers. *)
Lemma intersection_not_keyed_by_identifier :
  get_all_reports_under_manager 4 [w1; w2_inactive; w2_active] "1"
  = inr [w2_inactive]
  /\ (forall Interp : Py.Interpreter,
        get_active_adp_workers (Imp := imports_of [w1; w2_inactive; w2_active]) 4
          (Some "1"%string)
        = Return [])
  /\ worker_id w2_active = worker_id w2_inactive
  /\ w2_active <> w2_inactive
  /\ ~ (w2_active ∈ @nil worker
        <-> status_active w2_active = true
            /\ w2_active ∈ [w1; w2_inactive; w2_active]
            /\ exists r, r ∈ [w2_inactive] /\ worker_id r = worker_id w2_active).
Proof.
  split; [by vm_compute|]. split; [intros Interp; by vm_compute|].
  split; [reflexivity|]. split; [discriminate|].
  intros [_ Hkeyed]. eapply elem_of_nil, Hkeyed.
  split; [reflexivity|]. split; [by right; right; left|].
  exists w2_inactive. split; [by left | reflexivity].
Qed.





(** ** Matching a worker against the existing accounts *)

(** *** Trimming *)

Lemma append_nil x : String.append EmptyString x = x.
Proof. reflexivity. Qed.

Lemma append_cons c p x :
  String.append (String c p) x = String c (String.append p x).
Proof. reflexivity. Qed.

Lemma lstrip_split s :
  exists p, s = String.append p (Py.lstrip s) /\ all_space p = true.
Proof.
  induction s as [|c s (p & Hs & Hp)]; [by exists EmptyString|].
  simpl. destruct (Py.is_space c) eqn:Hc.
  - exists (String c p). rewrite append_cons. simpl. rewrite Hc, Hp.
    split; [by f_equal | done].
  - by exists EmptyString.
Qed.

Lemma lstrip_no_space s : starts_with_space (Py.lstrip s) = false.
Proof.
  induction s as [|c s IH]; [done|]. simpl.
  destruct (Py.is_space c) eqn:Hc; [done|]. simpl. exact Hc.
Qed.

Lemma rstrip_split s :
  exists q, s = String.append (Py.rstrip s) q /\ all_space q = true.
Proof.
  induction s as [|c s (q & Hs & Hq)]; [by exists EmptyString|].
  simpl. destruct (Py.rstrip s) as [|d r] eqn:Hr.
  - rewrite append_nil in Hs. subst q. destruct (Py.is_space c) eqn:Hc.
    + exists (String c s). rewrite append_nil. simpl. by rewrite Hc, Hq.
    + exists s. by rewrite append_cons, append_nil.
  - exists q. rewrite append_cons. split; [by f_equal | done].
Qed.

Lemma rstrip_no_space s : ends_with_space (Py.rstrip s) = false.
Proof.
  induction s as [|c s IH]; [done|]. simpl.
  destruct (Py.rstrip s) as [|d r] eqn:Hr.
  - destruct (Py.is_space c) eqn:Hc; [done|]. simpl. exact Hc.
  - exact IH.
Qed.

Lemma rstrip_starts s :
  starts_with_space s = false -> starts_with_space (Py.rstrip s) = false.
Proof.
  destruct s as [|c s]; [done|]. simpl. intros Hc.
  destruct (Py.rstrip s); [by rewrite Hc | done].
Qed.

Lemma lstrip_all_space q : all_space q = true -> Py.lstrip q = EmptyString.
Proof.
  induction q as [|c q IH]; [done|]. simpl.
  intros [Hc Hq]%andb_true_iff. rewrite Hc. auto.
Qed.

Lemma rstrip_all_space q : all_space q = true -> Py.rstrip q = EmptyString.
Proof.
  induction q as [|c q IH]; [done|]. simpl.
  intros [Hc Hq]%andb_true_iff. by rewrite IH, Hc.
Qed.

Lemma lstrip_app p x :
  all_space p = true -> Py.lstrip (String.append p x) = Py.lstrip x.
Proof.
  induction p as [|c p IH]; [done|]. rewrite append_cons. simpl.
  intros [Hc Hp]%andb_true_iff. rewrite Hc. auto.
Qed.

Lemma lstrip_id x : starts_with_space x = false -> Py.lstrip x = x.
Proof. destruct x as [|c x]; [done|]. simpl. by intros ->. Qed.

Lemma rstrip_app t q :
  all_space q = true -> ends_with_space t = false ->
  Py.rstrip (String.append t q) = t.
Proof.
  intros Hq. induction t as [|c t IH]; [intros _; by apply rstrip_all_space|].
  intros Ht. rewrite append_cons. simpl. destruct t as [|d r].
  - rewrite append_nil. simpl in Ht. by rewrite (rstrip_all_space q Hq), Ht.
  - rewrite IH; [done|]. exact Ht.
Qed.

(** [ascii_strip] computes the trimmed form, and the trimmed form is
    unique. *)
Lemma ascii_strip_trimmed s t : Py.ascii_strip s = t <-> trimmed s t.
Proof.
  unfold Py.ascii_strip. split.
  - intros <-. destruct (lstrip_split s) as (p & Hs & Hp).
    destruct (rstrip_split (Py.lstrip s)) as (q & Hl & Hq).
    exists p, q. split; [by rewrite <- Hl|]. split; [done|]. split; [done|].
    split; [apply rstrip_starts, lstrip_no_space | apply rstrip_no_space].
  - intros (p & q & -> & Hp & Hq & Hstart & Hend).
    rewrite (lstrip_app p _ Hp). destruct t as [|c t].
    + rewrite append_nil. by rewrite (lstrip_all_space q Hq).
    + rewrite lstrip_id by (rewrite append_cons; exact Hstart).
      by apply rstrip_app.
Qed.

Lemma is_ascii_lstrip s : Py.is_ascii s = true -> Py.is_ascii (Py.lstrip s) = true.
Proof.
  induction s as [|c s IH]; [done|]. simpl.
  intros [Hc Hs]%andb_true_iff. destruct (Py.is_space c); [auto|].
  simpl. by rewrite Hc, Hs.
Qed.

Lemma is_ascii_rstrip s : Py.is_ascii s = true -> Py.is_ascii (Py.rstrip s) = true.
Proof.
  induction s as [|c s IH]; [done|]. simpl.
  intros [Hc Hs]%andb_true_iff. specialize (IH Hs).
  destruct (Py.rstrip s) as [|d r].
  - destruct (Py.is_space c); [done|]. simpl. by rewrite Hc.
  - simpl in *. by rewrite Hc, IH.
Qed.

Lemma is_ascii_strip s : Py.is_ascii s = true -> Py.is_ascii (Py.ascii_strip s) = true.
Proof. intros Hs. by apply is_ascii_rstrip, is_ascii_lstrip. Qed.

(** *** Case *)

Lemma lower_char_upper c :
  65 <= nat_of_ascii c <= 90 ->
  nat_of_ascii (Py.lower_char c) = nat_of_ascii c + 32.
Proof.
  intros [Hlo Hhi]. unfold Py.lower_char.
  rewrite (proj2 (Nat.leb_le _ _) Hlo), (proj2 (Nat.leb_le _ _) Hhi). simpl.
  apply nat_ascii_embedding. lia.
Qed.

Lemma lower_char_other c :
  ~ (65 <= nat_of_ascii c <= 90) -> Py.lower_char c = c.
Proof.
  intros Hno. unfold Py.lower_char.
  destruct (65 <=? nat_of_ascii c) eqn:Hlo; [|done].
  destruct (nat_of_ascii c <=? 90) eqn:Hhi; [|done].
  apply Nat.leb_le in Hlo, Hhi. lia.
Qed.

Lemma nat_of_ascii_inj a b : nat_of_ascii a = nat_of_ascii b -> a = b.
Proof.
  intros H. rewrite <- (ascii_nat_embedding a), <- (ascii_nat_embedding b).
  by rewrite H.
Qed.

Lemma lower_char_same a b :
  Py.lower_char a = Py.lower_char b <-> same_letter a b.
Proof.
  unfold same_letter.
  destruct (decide (65 <= nat_of_ascii a <= 90)) as [Ha|Ha];
    destruct (decide (65 <= nat_of_ascii b <= 90)) as [Hb|Hb].
  - split.
    + intros H. apply (f_equal nat_of_ascii) in H.
      rewrite !lower_char_upper in H by done.
      left. apply nat_of_ascii_inj. lia.
    + intros [-> | [[_ H] | [_ H]]]; [done | lia | lia].
  - rewrite (lower_char_other b Hb). split.
    + intros <-. right. left. split; [done|]. by apply lower_char_upper.
    + intros [-> | [[_ H] | [H _]]]; [done | | done].
      apply nat_of_ascii_inj. by rewrite lower_char_upper.
  - rewrite (lower_char_other a Ha). split.
    + intros ->. right. right. split; [done|]. by apply lower_char_upper.
    + intros [-> | [[H _] | [_ H]]]; [done | done |].
      apply nat_of_ascii_inj. by rewrite lower_char_upper.
  - rewrite (lower_char_other a Ha), (lower_char_other b Hb). split.
    + by left.
    + intros [-> | [[H _] | [H _]]]; done.
Qed.

(** [ascii_lower] identifies exactly the strings that are equal up to
    case. *)
Lemma ascii_lower_ignoring_case s t :
  Py.ascii_lower s = Py.ascii_lower t <-> equal_ignoring_case s t.
Proof.
  split.
  - revert t. induction s as [|a s IH]; intros [|b t]; simpl; try done.
    + intros _. constructor.
    + intros [= Hc Hs]. constructor; [by apply lower_char_same | auto].
  - induction 1 as [|a b s t Hab _ IH]; [done|]. simpl.
    f_equal; [by apply lower_char_same | done].
Qed.

Section AccountEmailProperties.

Context `{Interp : Py.Interpreter} `{Imp : Imports} `{Cl : TalentLMSClient C}.

(** On ASCII text [normalize] is the ASCII trimming followed by the ASCII
    lower-casing. *)
Lemma normalize_ascii s :
  Py.is_ascii s = true -> normalize s = Py.ascii_lower (Py.ascii_strip s).
Proof.
  intros Hs. unfold normalize. rewrite (Py.strip_ascii s Hs).
  apply Py.lower_ascii. by apply is_ascii_strip.
Qed.

(** C3.  A candidate email is found in the set built by
    [get_all_talentlms_emails] exactly when [candidate.strip().lower()] is
    [stored.strip().lower()] for the (non-empty) email [stored] of some
    fetched user.  On ASCII text this is the case exactly when the
    candidate and the stored email, each without its leading and trailing
    white space, are equal up to the case of the letters A-Z.
    [" Jane@X.com "] is found when ["jane@x.com"] is stored;
    ["jane@y.com"] and ["ja ne@x.com"] are not.  And the reconciler, run
    with that set, skips a worker with work email [candidate] as already
    having an account when there is such a user, and issues the creation
    call when there is none. *)
Theorem account_email_membership (users : list lms_user) (candidate : string) :
  (normalize candidate ∈ talentlms_emails users
   <-> exists u stored, u ∈ users /\ Py.truthy (user_email u) = Some stored /\
                        Py.lower (Py.strip stored) = Py.lower (Py.strip candidate))
  /\ (forall stored,
        Py.is_ascii stored = true -> Py.is_ascii candidate = true ->
        (Py.lower (Py.strip stored) = Py.lower (Py.strip candidate)
         <-> exists ts tc, trimmed stored ts /\ trimmed candidate tc
                           /\ equal_ignoring_case ts tc))
  /\ (normalize " Jane@X.com "
        ∈ talentlms_emails [ {| user_email := Some "jane@x.com"%string |} ])
  /\ (normalize "jane@y.com"
        ∉ talentlms_emails [ {| user_email := Some "jane@x.com"%string |} ])
  /\ (normalize "ja ne@x.com"
        ∉ talentlms_emails [ {| user_email := Some "jane@x.com"%string |} ])
  /\ (forall (w : worker) (s : store C),
        Py.truthy (get_work_email w) = Some candidate ->
        existing_emails_obj s = talentlms_emails users ->
        ((exists u stored, u ∈ users /\ Py.truthy (user_email u) = Some stored /\
                           Py.lower (Py.strip stored)
                           = Py.lower (Py.strip candidate)) ->
         sync_worker w s
         = (inr tt, after s (client s)
                      [PrintAlreadyHasAccount (worker_full_name w) candidate]
                      0 1 0))
        /\ (~ (exists u stored, u ∈ users /\
                                Py.truthy (user_email u) = Some stored /\
                                Py.lower (Py.strip stored)
                                = Py.lower (Py.strip candidate)) ->
            exists c evs dc ds de,
              sync_worker w s = (inr tt, after s c evs dc ds de)
              /\ creation_calls evs = [creation_call_of w])).
Proof.
  assert (Hone : forall x,
    x ∈ talentlms_emails [ {| user_email := Some "jane@x.com"%string |} ]
    <-> x = "jane@x.com"%string).
  { intros x. rewrite talentlms_emails_spec. split.
    - intros (u & stored & Hu & Hs & <-).
      apply list_elem_of_singleton in Hu as ->. injection Hs as <-.
      by rewrite normalize_ascii.
    - intros ->. eexists _, _. split; [by left|]. split; [reflexivity|].
      by rewrite normalize_ascii. }
  split; [apply talentlms_emails_spec|]. split; [|split; [|split; [|split]]].
  - intros stored Hs Hc.
    change (normalize stored = normalize candidate
            <-> exists ts tc, trimmed stored ts /\ trimmed candidate tc
                              /\ equal_ignoring_case ts tc).
    rewrite !normalize_ascii by done. rewrite ascii_lower_ignoring_case. split.
    + intros H. exists (Py.ascii_strip stored), (Py.ascii_strip candidate).
      by rewrite <- !ascii_strip_trimmed.
    + intros (ts & tc & Hts & Htc & H).
      apply ascii_strip_trimmed in Hts, Htc. by subst.
  - apply Hone. by rewrite normalize_ascii.
  - rewrite Hone. by rewrite normalize_ascii.
  - rewrite Hone. by rewrite normalize_ascii.
  - intros w s He Hexisting. split.
    + intros Hmatch. apply sync_worker_existing; [done|].
      rewrite Hexisting. by apply talentlms_emails_spec.
    + intros Hnone.
      destruct (sync_worker_step w s) as (c & evs & dc & ds & de & Hw & _ & Hcalls).
      exists c, evs, dc, ds, de. split; [done|].
      rewrite Hcalls. apply decide_True. unfold lacks_account. rewrite He.
      rewrite Hexisting. intros Hin. apply Hnone. by apply talentlms_emails_spec.
Qed.

End AccountEmailProperties.
(** ** Sample runs *)

Section SampleOutputs.

#[local] Existing Instance Py.ascii_interpreter.

(** Two workers whose work emails differ by case only, no existing account:
    both get a creation call and an enrollment. *)
Example same_email_created_twice :
  out (sync_workers_to_talentlms (Imp := imports_of [w_joe; w_joseph])
         [w_joe; w_joseph] ∅ client_two_accounts).2
  = [PrintCreating "Joe" "joe@x.com";
     CallCreateUser (Some "Joe"%string) (Some EmptyString)
                    "joe@x.com" "joe@x.com" "Testpassword1";
     PrintCreatedUser (Py.VStr "7");
     CallAddUserToCourse 7 onboarding;
     PrintEnrolled onboarding;
     PrintCreating "Joseph" "JOE@X.COM";
     CallCreateUser (Some "Joseph"%string) (Some EmptyString)
                    "JOE@X.COM" "JOE@X.COM" "Testpassword1";
     PrintCreatedUser (Py.VInt 8);
     CallAddUserToCourse 8 onboarding;
     PrintEnrolled onboarding;
     PrintSummary 2 2 0 0].
Proof. by vm_compute. Qed.

(** A worker with work email [" Jane@X.com "] when ["jane@x.com"] has an
    account, and a worker without work email: both are skipped, nothing is
    called on the client. *)
Example existing_and_unsyncable_skipped :
  out (sync_workers_to_talentlms (Imp := imports_of [w_jane; w_nomail])
         [w_jane; w_nomail]
         (talentlms_emails [ {| user_email := Some "jane@x.com"%string |} ])
         client_two_accounts).2
  = [PrintAlreadyHasAccount "Jane" " Jane@X.com ";
     PrintNoWorkEmail "Dee";
     PrintSummary 2 0 2 0].
Proof. by vm_compute. Qed.


End SampleOutputs.

(** * Further properties *)

(** ** The subtree collector: depth, cycles, blocks *)


Lemma for_reports_block (rec rec' : string -> Py.exn + list worker) d l :
  (forall j s, rec j = inr s -> rec' j = inr s) ->
  (forall j s, rec j = inr s ->
     forall r i, r ∈ s -> worker_key r = Some i ->
     exists sub l1 l3, rec' i = inr sub /\ s = l1 ++ r :: sub ++ l3) ->
  for_reports rec d [] = inr l ->
  forall r i, r ∈ l -> worker_key r = Some i ->
  exists sub l1 l3, rec' i = inr sub /\ l = l1 ++ r :: sub ++ l3.
Proof.
  intros Hmono Hrec. revert l.
  induction d as [|r0 d IH]; intros l; simpl.
  - intros [= <-] r i Hr. by apply elem_of_nil in Hr.
  - destruct (worker_key r0) as [i0|] eqn:Hk0.
    + destruct (rec i0) as [e0|sub0] eqn:Hsub0; [done|].
      rewrite for_reports_acc.
      destruct (for_reports rec d []) as [e'|l']; simpl; [done|].
      intros [= <-] r i Hr Hk.
      apply elem_of_cons in Hr as [-> | Hr].
      * assert (i0 = i) as -> by congruence.
        exists sub0, [], l'. split; [by apply Hmono | done].
      * apply elem_of_app in Hr as [Hr | Hr].
        -- destruct (Hrec i0 sub0 Hsub0 r i Hr Hk) as (sub & l1 & l3 & Hi & ->).
           exists sub, (r0 :: l1), (l3 ++ l'). split; [done|].
           simpl. rewrite <- !app_assoc. simpl. by rewrite <- !app_assoc.
        -- destruct (IH l' eq_refl r i Hr Hk) as (sub & l1 & l3 & Hi & ->).
           exists sub, (r0 :: sub0 ++ l1), l3. split; [done|].
           simpl. by rewrite <- !app_assoc.
    + rewrite for_reports_acc.
      destruct (for_reports rec d []) as [e'|l']; simpl; [done|].
      intros [= <-] r i Hr Hk.
      apply elem_of_cons in Hr as [-> | Hr]; [congruence|].
      destruct (IH l' eq_refl r i Hr Hk) as (sub & l1 & l3 & Hi & ->).
      by exists sub, (r0 :: l1), l3.
Qed.

Lemma collect_reports_block (ws : list worker) n m l :
  collect_reports n (build_org_hierarchy ws).1 m = inr l ->
  forall r i, r ∈ l -> worker_key r = Some i ->
  exists sub l1 l3,
    collect_reports n (build_org_hierarchy ws).1 i = inr sub
    /\ l = l1 ++ r :: sub ++ l3.
Proof.
  revert m l. induction n as [|n IH]; intros m l; [done|].
  intros Hl. simpl in Hl.
  apply (for_reports_block (collect_reports n (build_org_hierarchy ws).1)
           (collect_reports (S n) (build_org_hierarchy ws).1)
           (direct_reports_of (build_org_hierarchy ws).1 m) l); [| |exact Hl].
  - intros j s. apply collect_reports_S.
  - intros j s Hs r i Hr Hk.
    destruct (IH j s Hs r i Hr Hk) as (sub & l1 & l3 & Hi & ->).
    exists sub, l1, l3. split; [by apply collect_reports_S | done].
Qed.

(** X3.  In the list the collector returns, every worker that has an
    identifier is followed at once by the whole list the collector returns
    for that identifier: the subtree of a report is one block, right after
    the report. *)
Theorem collector_subtree_block (ws : list worker) (m : string) (limit : nat)
    (l : list worker) (r : worker) (i : string) :
  get_all_reports_under_manager limit ws m = inr l ->
  r ∈ l -> worker_key r = Some i ->
  exists sub l1 l3,
    get_all_reports_under_manager limit ws i = inr sub
    /\ l = l1 ++ r :: sub ++ l3.
Proof.
  rewrite !get_all_reports_eq. intros Hl Hr Hk.
  destruct (collect_reports_block ws limit m l Hl r i Hr Hk)
    as (sub & l1 & l3 & Hi & ->).
  by exists sub, l1, l3.
Qed.

(** X3 on the chain of the scenario: under manager 1, worker 2 is followed
    by its own subtree. *)
Lemma collector_subtree_block_witness :
  exists sub l1 l3,
    get_all_reports_under_manager 4 [w1; w2; w3] "2" = inr sub
    /\ [w2; w3] = l1 ++ w2 :: sub ++ l3.
Proof.
  apply (collector_subtree_block [w1; w2; w3] "1" 4 [w2; w3] w2 "2" scenario_chain).
  - by left.
  - reflexivity.
Defined.

(** ** The filtering pipeline: who passes a manager filter *)

Lemma under_has_manager (ws : list worker) (m : string) (y : worker) :
  under ws m y -> manager_key y <> None.
Proof.
  destruct 1 as [y _ Hm | x k y _ _ _ Hm];
    apply manager_in_key in Hm; congruence.
Qed.

Section PipelineFurther.

Context `{Imp : Imports}.

(** X4.  Whenever the pipeline returns with a manager filter, the record
    the filter resolved to is not in the result, and every worker of the
    result carries a manager reference: the manager is never synced as one
    of its own reports, and workers without manager never pass the
    filter. *)
Theorem manager_filter_excludes_manager (limit : nat)
    (data : option (list worker)) (manager_identifier : Py.optstr)
    (identifier : string) (manager_worker : worker) (result : list worker) :
  get_workers = inr data ->
  Py.truthy manager_identifier = Some identifier ->
  find_worker_by_identifier (default [] data) identifier = Some manager_worker ->
  get_active_adp_workers limit manager_identifier = Return result ->
  (manager_worker ∉ result)
  /\ (forall w, w ∈ result -> manager_key w <> None).
Proof.
  intros Hdata Hmgr Hfind. unfold get_active_adp_workers.
  rewrite Hdata, Hmgr, Hfind.
  destruct (worker_key manager_worker) as [mid|] eqn:Hkey; [|done].
  destruct (get_all_reports_under_manager limit (default [] data) mid)
    as [e|reports] eqn:Hreports; [done|].
  intros [= <-].
  pose proof (get_all_reports_members _ _ _ _ Hreports) as Hmem.
  split.
  - intros Hin. apply list_elem_of_filter in Hin as [Hin _].
    apply Hmem in Hin. rewrite get_all_reports_eq in Hreports.
    rewrite (reaches_cycle_raises (default [] data) mid) in Hreports;
      [done|].
    left. by exists manager_worker.
  - intros w Hw. apply list_elem_of_filter in Hw as [Hw _].
    apply Hmem in Hw. by eapply under_has_manager.
Qed.

End PipelineFurther.

Section PipelineFurtherRuns.

#[local] Existing Instance Py.ascii_interpreter.

(** X4 on the chain of the scenario, filtered by manager 1. *)
Lemma manager_filter_excludes_manager_witness :
  (w1 ∉ [w2; w3]) /\ (forall w, w ∈ [w2; w3] -> manager_key w <> None).
Proof.
  apply (manager_filter_excludes_manager (Imp := imports_of [w1; w2; w3]) 4
           (Some [w1; w2; w3]) (Some "1"%string) "1" w1 [w2; w3]);
    by vm_compute.
Defined.

End PipelineFurtherRuns.

(** ** The account emails of several user lists *)

Section AccountEmailsFurther.

Context `{Interp : Py.Interpreter}.

Lemma talentlms_emails_app (us1 us2 : list lms_user) :
  talentlms_emails (us1 ++ us2) = talentlms_emails us1 ∪ talentlms_emails us2.
Proof.
  apply set_eq. intros x.
  rewrite elem_of_union, !talentlms_emails_spec. split.
  - intros (u & stored & Hu & Hs & Hx).
    apply elem_of_app in Hu as [Hu | Hu]; [left | right]; by exists u, stored.
  - intros [(u & stored & Hu & Hs & Hx) | (u & stored & Hu & Hs & Hx)];
      exists u, stored; (split; [apply elem_of_app; auto | done]).
Qed.

Lemma talentlms_emails_size (users : list lms_user) :
  size (talentlms_emails users) <= length users.
Proof.
  induction users as [|u users IH]; [done|].
  change (u :: users) with ([u] ++ users). rewrite talentlms_emails_app.
  rewrite size_union_alt.
  assert (size (talentlms_emails [u]) <= 1).
  { unfold talentlms_emails. simpl.
    destruct (Py.truthy (user_email u)).
    - rewrite union_empty_r_L, size_singleton. lia.
    - rewrite size_empty. lia. }
  assert (size (talentlms_emails users ∖ talentlms_emails [u])
          <= size (talentlms_emails users))
    by (apply subseteq_size; intros x Hx;
        by apply elem_of_difference in Hx as [Hx _]).
  simpl. lia.
Qed.

(** X5.  The email set of two user lists put together is the union of
    their sets, so neither the order of the users nor repeats matter; and a
    set never has more elements than there are users: a user without email,
    or one whose email equals another's after trimming and lower-casing,
    adds nothing. *)
Theorem account_emails_union_and_size (us1 us2 : list lms_user) :
  talentlms_emails (us1 ++ us2) = talentlms_emails us1 ∪ talentlms_emails us2
  /\ talentlms_emails (us2 ++ us1) = talentlms_emails (us1 ++ us2)
  /\ size (talentlms_emails (us1 ++ us2)) <= length us1 + length us2.
Proof.
  split; [apply talentlms_emails_app|]. split.
  - rewrite !talentlms_emails_app. apply union_comm_L.
  - rewrite <- length_app. apply talentlms_emails_size.
Qed.

End AccountEmailsFurther.

(** ** The reconciler: what the counters count, what is called *)

Section ReconcilerFurther.

Context `{Interp : Py.Interpreter} `{Imp : Imports} `{Cl : TalentLMSClient C}.

Implicit Types (w : worker) (s : store C).

(** The enrollment calls of a list of events are all for the onboarding
    course. *)
Definition onboarding_only (evs : list event) : Prop :=
  forall ev, ev ∈ enrollment_calls evs ->
    exists uid, ev = CallAddUserToCourse uid COURSE_ID_ONBOARDING.

Lemma enrollment_calls_app evs evs' :
  enrollment_calls (evs ++ evs') = enrollment_calls evs ++ enrollment_calls evs'.
Proof. apply filter_app. Qed.

Lemma onboarding_only_nil : onboarding_only [].
Proof. intros ev Hev. by apply elem_of_nil in Hev. Qed.

Lemma onboarding_only_app evs evs' :
  onboarding_only evs -> onboarding_only evs' -> onboarding_only (evs ++ evs').
Proof.
  intros H1 H2 ev. rewrite enrollment_calls_app, elem_of_app.
  intros [Hev | Hev]; auto.
Qed.

(** One iteration, in full: which counter moves, whether the client is
    touched, and which calls are made. *)
Lemma sync_worker_account w s :
  exists c evs dc ds de,
    sync_worker w s = (inr tt, after s c evs dc ds de)
    /\ (lacks_account (existing_emails_obj s) w ->
        ds = 0 /\ dc + de = 1 /\ creation_calls evs = [creation_call_of w])
    /\ (~ lacks_account (existing_emails_obj s) w ->
        ds = 1 /\ dc = 0 /\ de = 0 /\ c = client s /\ creation_calls evs = [])
    /\ length (enrollment_calls evs) <= dc
    /\ onboarding_only evs.
Proof.
  destruct (Py.truthy (get_work_email w)) as [email|] eqn:He.
  2:{ eexists _, _, 0, 1, 0. rewrite (sync_worker_no_email w s He).
      split; [done|].
      split; [unfold lacks_account; rewrite He; tauto|].
      split; [done|]. split; [done | apply onboarding_only_nil]. }
  destruct (decide (normalize email ∈ existing_emails_obj s)) as [Hin|Hin].
  { eexists _, _, 0, 1, 0. rewrite (sync_worker_existing w s email He Hin).
    split; [done|].
    split; [unfold lacks_account; rewrite He; tauto|].
    split; [done|]. split; [done | apply onboarding_only_nil]. }
  assert (Hlacks : lacks_account (existing_emails_obj s) w)
    by (unfold lacks_account; by rewrite He).
  rewrite (creation_call_of_eq w email He).
  destruct (create_user (first_name_of w) (last_name_of w) email email
              "Testpassword1" (client s)) as [[e|created] c1] eqn:Hcreate.
  { eexists _, _, 0, 0, 1.
    rewrite (sync_worker_create_raises w s email e c1 He Hin Hcreate).
    split; [done|]. split; [done|]. split; [tauto|].
    split; [done | apply onboarding_only_nil]. }
  destruct (Py.value_truthy (account_id created)) eqn:Hid.
  2:{ eexists _, _, 1, 0, 0.
      rewrite (sync_worker_created_no_id w s email created c1 He Hin Hcreate Hid).
      split; [done|]. split; [done|]. split; [tauto|].
      split; [simpl; lia | apply onboarding_only_nil]. }
  destruct (Py.int (account_id created)) as [e|uid] eqn:Hint.
  { eexists _, _, 1, 0, 0.
    rewrite (sync_worker_created_bad_id w s email created c1 e He Hin Hcreate Hid Hint).
    split; [done|]. split; [done|]. split; [tauto|].
    split; [simpl; lia | apply onboarding_only_nil]. }
  destruct (add_user_to_course uid COURSE_ID_ONBOARDING c1) as [[e|[]] c2] eqn:Henroll.
  - eexists _, _, 1, 0, 0.
    rewrite (sync_worker_enroll_raises w s email created c1 uid e c2
               He Hin Hcreate Hid Hint Henroll).
    split; [done|]. split; [done|]. split; [tauto|]. split; [done|].
    intros ev Hev. apply list_elem_of_singleton in Hev. by exists uid.
  - eexists _, _, 1, 0, 0.
    rewrite (sync_worker_enrolled w s email created c1 uid c2
               He Hin Hcreate Hid Hint Henroll).
    split; [done|]. split; [done|]. split; [tauto|]. split; [done|].
    intros ev Hev. apply list_elem_of_singleton in Hev. by exists uid.
Qed.

(** The loop, in full. *)
Lemma for_workers_account (ws : list worker) s :
  exists c evs dc ds de,
    for_workers ws s = (inr tt, after s c evs dc ds de)
    /\ dc + de = length (filter (lacks_account (existing_emails_obj s)) ws)
    /\ ds = length (filter (fun w => ~ lacks_account (existing_emails_obj s) w) ws)
    /\ ((forall w, w ∈ ws -> ~ lacks_account (existing_emails_obj s) w) ->
        c = client s)
    /\ creation_calls evs
       = creation_call_of <$> filter (lacks_account (existing_emails_obj s)) ws
    /\ length (enrollment_calls evs) <= dc
    /\ onboarding_only evs.
Proof.
  revert s. induction ws as [|w ws IH]; intros s.
  - exists (client s), [], 0, 0, 0. simpl. unfold ret. rewrite store_eta by done.
    repeat split; try done. apply onboarding_only_nil.
  - destruct (sync_worker_account w s)
      as (c & evs & dc & ds & de & Hw & Hyes & Hno & Henr & Honly).
    destruct (IH (after s c evs dc ds de))
      as (c' & evs' & dc' & ds' & de' & Hws & Hsum & Hskip & Hclient & Hcalls
          & Henr' & Honly').
    simpl in Hsum, Hskip, Hclient, Hcalls.
    exists c', (evs ++ evs'), (dc + dc'), (ds + ds'), (de + de').
    rewrite (for_workers_cons _ _ _ _ Hw), Hws, after_after.
    split; [done|].
    rewrite creation_calls_app, enrollment_calls_app, length_app, !filter_cons.
    destruct (decide (lacks_account (existing_emails_obj s) w)) as [Hl | Hl].
    + destruct (Hyes Hl) as (-> & Hone & ->).
      rewrite decide_False by tauto.
      split; [simpl; lia|]. split; [simpl; lia|].
      split; [intros Hall; exfalso; apply (Hall w); [by left | done]|].
      split; [by rewrite Hcalls|]. split; [lia|].
      by apply onboarding_only_app.
    + destruct (Hno Hl) as (-> & -> & -> & -> & ->).
      rewrite decide_True by done.
      split; [simpl; lia|]. split; [simpl; lia|].
      split; [intros Hall; apply Hclient; intros w' Hw'; apply Hall; by right|].
      split; [by rewrite Hcalls|]. split; [lia|].
      by apply onboarding_only_app.
Qed.

(** The whole call, in full. *)
Lemma sync_workers_account (ws : list worker) (existing : gset string) (c0 : C) :
  created_count (sync_workers_to_talentlms ws existing c0).2
  + error_count (sync_workers_to_talentlms ws existing c0).2
  = length (filter (lacks_account existing) ws)
  /\ skipped_count (sync_workers_to_talentlms ws existing c0).2
     = length (filter (fun w => ~ lacks_account existing w) ws)
  /\ ((forall w, w ∈ ws -> ~ lacks_account existing w) ->
      client (sync_workers_to_talentlms ws existing c0).2 = c0)
  /\ creation_calls (out (sync_workers_to_talentlms ws existing c0).2)
     = creation_call_of <$> filter (lacks_account existing) ws
  /\ length (enrollment_calls (out (sync_workers_to_talentlms ws existing c0).2))
     <= created_count (sync_workers_to_talentlms ws existing c0).2
  /\ onboarding_only (out (sync_workers_to_talentlms ws existing c0).2).
Proof.
  unfold sync_workers_to_talentlms, bind.
  destruct (for_workers_account ws (Store c0 [] ws existing 0 0 0))
    as (c & evs & dc & ds & de & -> & Hsum & Hskip & Hclient & Hcalls
        & Henr & Honly).
  unfold summary, emit. simpl in *.
  rewrite creation_calls_app, enrollment_calls_app, length_app. simpl.
  rewrite !app_nil_r.
  split; [done|]. split; [done|]. split; [done|]. split; [done|].
  split; [lia|].
  apply onboarding_only_app; [done|].
  intros ev Hev. by apply elem_of_nil in Hev.
Qed.

End ReconcilerFurther.

Lemma truthy_nonempty (v : Py.optstr) (s : string) :
  Py.truthy v = Some s -> s <> EmptyString.
Proof.
  unfold Py.truthy. destruct v as [t|]; [|done].
  destruct (decide (t = EmptyString)); [done|]. by intros [= <-].
Qed.

Lemma name_or_placeholder_not_blank (names : Py.optstr * Py.optstr) :
  ~ (Py.truthy (name_or_placeholder names).1 = None
     /\ Py.truthy (name_or_placeholder names).2 = None).
Proof.
  unfold name_or_placeholder.
  destruct (Py.truthy names.1) eqn:H1, (Py.truthy names.2) eqn:H2;
    simpl; intros [? ?]; congruence.
Qed.

Lemma filter_all {A} (P : A -> Prop) `{forall x, Decision (P x)} (l : list A) :
  (forall x, x ∈ l -> P x) -> filter P l = l.
Proof.
  induction l as [|a l IH]; intros Hl; [done|].
  rewrite filter_cons_True by (apply Hl; by left).
  f_equal. apply IH. intros x Hx. apply Hl. by right.
Qed.

Section ReconcilerExtras.

Context `{Interp : Py.Interpreter} `{Imp : Imports} `{Cl : TalentLMSClient C}.

Implicit Types (w : worker) (s : store C).

(** X6.  At the end of [sync_workers_to_talentlms], [skipped_count] is the
    number of workers that have no work email or whose work email already
    has an account; [created_count + error_count] is the number of the
    other workers, which is also the number of creation calls made. *)
Theorem counters_by_account_state (ws : list worker) (existing : gset string)
    (c0 : C) :
  skipped_count (sync_workers_to_talentlms ws existing c0).2
  = length (filter (fun w => ~ lacks_account existing w) ws)
  /\ created_count (sync_workers_to_talentlms ws existing c0).2
     + error_count (sync_workers_to_talentlms ws existing c0).2
     = length (filter (lacks_account existing) ws)
  /\ length (creation_calls (out (sync_workers_to_talentlms ws existing c0).2))
     = created_count (sync_workers_to_talentlms ws existing c0).2
       + error_count (sync_workers_to_talentlms ws existing c0).2.
Proof.
  destruct (sync_workers_account ws existing c0)
    as (Hsum & Hskip & _ & Hcalls & _).
  split; [done|]. split; [done|].
  by rewrite Hcalls, length_fmap, Hsum.
Qed.

(** X7.  Every creation call the reconciler makes passes the email also as
    login, the fixed password, a non-empty email that is the work email of
    one of the workers and whose normalized form is not among the existing
    emails, and a name that is not blank in both parts. *)
Theorem creation_calls_well_formed (ws : list worker) (existing : gset string)
    (c0 : C) (fn ln : Py.optstr) (email login pw : string) :
  CallCreateUser fn ln email login pw
    ∈ out (sync_workers_to_talentlms ws existing c0).2 ->
  login = email
  /\ pw = "Testpassword1"%string
  /\ email <> EmptyString
  /\ (normalize email ∉ existing)
  /\ ~ (Py.truthy fn = None /\ Py.truthy ln = None)
  /\ exists w, w ∈ ws /\ Py.truthy (get_work_email w) = Some email.
Proof.
  intros Hev.
  assert (Hcall : CallCreateUser fn ln email login pw
                    ∈ creation_calls (out (sync_workers_to_talentlms ws existing c0).2))
    by (apply list_elem_of_filter; by split).
  destruct (sync_workers_account ws existing c0) as (_ & _ & _ & Hcalls & _).
  rewrite Hcalls in Hcall. apply list_elem_of_fmap in Hcall as (w & Heq & Hw).
  apply list_elem_of_filter in Hw as [Hlacks Hw].
  unfold lacks_account in Hlacks.
  destruct (Py.truthy (get_work_email w)) as [email'|] eqn:He; [|done].
  rewrite (creation_call_of_eq w email' He) in Heq.
  injection Heq as -> -> -> -> ->.
  split; [done|]. split; [done|].
  split; [by eapply truthy_nonempty|]. split; [done|].
  split; [apply name_or_placeholder_not_blank|].
  by exists w.
Qed.

(** X8.  When every worker either has no work email or has one that is
    already among the existing emails, the reconciler never calls the
    client: the client is left as it was, nothing is created, nothing
    fails, and every worker is counted as skipped. *)
Theorem reconciler_idle_when_nothing_to_create (ws : list worker)
    (existing : gset string) (c0 : C) :
  (forall w, w ∈ ws -> ~ lacks_account existing w) ->
  client (sync_workers_to_talentlms ws existing c0).2 = c0
  /\ created_count (sync_workers_to_talentlms ws existing c0).2 = 0
  /\ error_count (sync_workers_to_talentlms ws existing c0).2 = 0
  /\ skipped_count (sync_workers_to_talentlms ws existing c0).2 = length ws
  /\ creation_calls (out (sync_workers_to_talentlms ws existing c0).2) = []
  /\ enrollment_calls (out (sync_workers_to_talentlms ws existing c0).2) = [].
Proof.
  intros Hall.
  destruct (sync_workers_account ws existing c0)
    as (Hsum & Hskip & Hclient & Hcalls & Henr & _).
  rewrite (filter_none (lacks_account existing) ws Hall) in Hsum, Hcalls.
  rewrite (filter_all (fun w => ~ lacks_account existing w) ws Hall) in Hskip.
  simpl in Hsum.
  split; [by apply Hclient|]. split; [lia|]. split; [lia|]. split; [done|].
  split; [done|].
  apply length_zero_iff_nil. lia.
Qed.

(** X9.  The reconciler enrolls into the onboarding course only, and makes
    at most one enrollment call per created account: the number of
    enrollment calls never exceeds [created_count]. *)
Theorem enrollment_calls_bounded (ws : list worker) (existing : gset string)
    (c0 : C) :
  (forall uid course,
     CallAddUserToCourse uid course
       ∈ out (sync_workers_to_talentlms ws existing c0).2 ->
     course = COURSE_ID_ONBOARDING)
  /\ length (enrollment_calls (out (sync_workers_to_talentlms ws existing c0).2))
     <= created_count (sync_workers_to_talentlms ws existing c0).2.
Proof.
  destruct (sync_workers_account ws existing c0) as (_ & _ & _ & _ & Henr & Honly).
  split; [|done].
  intros uid course Hev.
  destruct (Honly (CallAddUserToCourse uid course)) as [uid' Heq].
  - apply list_elem_of_filter. by split.
  - by injection Heq.
Qed.

(** X10.  The loop over two lists put together is the loop over the first
    followed by the loop over the second from the store the first left,
    whatever failed on the way; so what is printed and called for the first
    workers does not depend on the workers that follow. *)
Theorem loop_over_concatenation (ws1 ws2 : list worker) s :
  for_workers (ws1 ++ ws2) s = for_workers ws2 (for_workers ws1 s).2
  /\ out (for_workers ws1 s).2 `prefix_of` out (for_workers (ws1 ++ ws2) s).2.
Proof.
  assert (Hcomp : forall s0,
    for_workers (ws1 ++ ws2) s0 = for_workers ws2 (for_workers ws1 s0).2).
  { induction ws1 as [|w ws1 IH]; intros s0; [done|].
    destruct (sync_worker_step w s0) as (c & evs & dc & ds & de & Hw & _).
    rewrite <- app_comm_cons, !(for_workers_cons _ _ _ _ Hw). apply IH. }
  split; [apply Hcomp|]. rewrite Hcomp.
  destruct (for_workers_spec ws2 (for_workers ws1 s).2)
    as (c & evs & dc & ds & de & -> & _).
  simpl. by exists evs.
Qed.

End ReconcilerExtras.

Section ReconcilerExtrasRuns.

#[local] Existing Instance Py.ascii_interpreter.

(** X7 on the run over two workers with the same work email. *)
Lemma creation_calls_well_formed_witness :
  ("joe@x.com" <> EmptyString)
  /\ (normalize "joe@x.com" ∉ (∅ : gset string))
  /\ exists w, w ∈ [w_joe; w_joseph]
               /\ Py.truthy (@get_work_email (imports_of [w_joe; w_joseph]) w)
                  = Some "joe@x.com"%string.
Proof.
  edestruct (creation_calls_well_formed (Imp := imports_of [w_joe; w_joseph])
               [w_joe; w_joseph] ∅ client_two_accounts
               (Some "Joe"%string) (Some EmptyString)
               "joe@x.com" "joe@x.com" "Testpassword1")
    as (_ & _ & Hne & Hnew & _ & Hw).
  - rewrite same_email_created_twice. right. left.
  - split; [exact Hne|]. split; [exact Hnew | exact Hw].
Defined.

(** X8 on a worker whose work email has an account and a worker without
    work email. *)
Lemma reconciler_idle_when_nothing_to_create_witness :
  client (sync_workers_to_talentlms (Imp := imports_of [w_jane; w_nomail])
            [w_jane; w_nomail]
            (talentlms_emails [ {| user_email := Some "jane@x.com"%string |} ])
            client_two_accounts).2 = client_two_accounts
  /\ skipped_count
       (sync_workers_to_talentlms (Imp := imports_of [w_jane; w_nomail])
          [w_jane; w_nomail]
          (talentlms_emails [ {| user_email := Some "jane@x.com"%string |} ])
          client_two_accounts).2 = 2.
Proof.
  edestruct (reconciler_idle_when_nothing_to_create
               (Imp := imports_of [w_jane; w_nomail]) [w_jane; w_nomail]
               (talentlms_emails [ {| user_email := Some "jane@x.com"%string |} ])
               client_two_accounts)
    as (Hclient & _ & _ & Hskipped & _).
  - intros w Hw.
    repeat (apply elem_of_cons in Hw as [-> | Hw]);
      [| | by apply elem_of_nil in Hw];
      (eapply bool_decide_unpack; by vm_compute).
  - split; [exact Hclient | exact Hskipped].
Defined.

End ReconcilerExtrasRuns.
